(** * The red-dot reaction-time engine of [main.py]

    A shallow embedding of the selection, hit-test, click-timing and
    persistence code of [AsteroidsDemo], and the properties of it that the
    specification states.

    What the program takes from its surroundings is made explicit:
    - the results of [randrange], of [time.perf_counter()] and of
      [datetime.now()] are read, call by call, from an environment [Env]
      that lists the outcomes in the order the calls receive them;
    - the outcome of the collision pass of a frame is carried by the frame
      event;
    - Python's [str] on a number is a parameter of the section that holds
      the click handler.

    [time.perf_counter()] returns a float number of seconds. Readings are
    rationals here and the subtraction is exact; what the development uses
    of the float subtraction is its sign and the comparison with zero,
    which rounding does not change. *)

From Stdlib Require Import Ascii QArith Lqa.
From stdpp Require Import base option list strings pretty.

Close Scope Q_scope.
Open Scope string_scope.
Open Scope list_scope.
Open Scope nat_scope.

(** ** The environment and the effect monad *)

(** A reading of [datetime.now()], as far as ["%H:%M:%S"] looks at it. *)
Record datetime := mkDatetime { hour : nat; minute : nat; second : nat }.

Record Env := mkEnv {
  draws : list nat;        (* what the calls of randrange return, in order *)
  perf : list Q;           (* what the calls of time.perf_counter() return *)
  wall : list datetime     (* what the calls of datetime.now() return *)
}.

(** A computation reads outcomes from the environment and returns the
    rest of it; [None] stands for a run that does not complete: an
    exception, or an environment that is not a record of this run (it ends
    before the run does, or holds an outcome the call cannot return). *)
Definition M (A : Type) : Type := Env -> option (A * Env).

#[export] Instance M_ret : MRet M := fun A a e => Some (a, e).
#[export] Instance M_bind : MBind M := fun A B f m e =>
  match m e with
  | Some (a, e') => f a e'
  | None => None
  end.

(** An operation that raises (an index out of range). *)
Definition lift {A} (o : option A) : M A := fun e =>
  match o with
  | Some a => Some (a, e)
  | None => None
  end.

(** [randrange(n)]: the next draw, which lies in [0, n). *)
Definition randrange (n : nat) : M nat := fun e =>
  match draws e with
  | d :: ds => if (d <? n)%nat then Some (d, mkEnv ds (perf e) (wall e)) else None
  | [] => None
  end.

(** [while reject(x): x = randrange(n)] on the list of draws. Every turn
    of the loop takes one draw, so the recursion is on that list; the loop
    that never meets an accepted draw has no result. *)
Fixpoint while_randrange (n : nat) (reject : nat -> bool) (x : nat)
    (ds : list nat) : option (nat * list nat) :=
  if reject x then
    match ds with
    | d :: ds' => if (d <? n)%nat then while_randrange n reject d ds' else None
    | [] => None
    end
  else Some (x, ds).

Definition redraw (n : nat) (reject : nat -> bool) (x : nat) : M nat := fun e =>
  match while_randrange n reject x (draws e) with
  | Some (y, ds) => Some (y, mkEnv ds (perf e) (wall e))
  | None => None
  end.

(** [time.perf_counter()]. *)
Definition perf_counter : M Q := fun e =>
  match perf e with
  | t :: ts => Some (t, mkEnv (draws e) ts (wall e))
  | [] => None
  end.

(** [datetime.now()]: hour in [0, 24), minute and second in [0, 60). *)
Definition valid_datetime (d : datetime) : bool :=
  ((hour d <? 24) && (minute d <? 60) && (second d <? 60))%nat.

Definition now : M datetime := fun e =>
  match wall e with
  | d :: ds => if valid_datetime d then Some (d, mkEnv (draws e) (perf e) ds) else None
  | [] => None
  end.

(** [.strftime("%H:%M:%S")]: three fields of two decimal digits. *)
Definition digit (d : nat) : ascii := ascii_of_nat (48 + d).

Definition two_digits (n : nat) : string :=
  String (digit (n / 10)) (String (digit (n mod 10)) "").

Definition strftime_HMS (d : datetime) : string :=
  two_digits (hour d) +:+ ":" +:+ two_digits (minute d) +:+ ":" +:+ two_digits (second d).

(** The line feed of the ["\n"] literals. *)
Definition LF : string := String (ascii_of_nat 10) "".

(** [x < y] on rationals, as a test. *)
Definition Qltb (x y : Q) : bool := negb (Qle_bool y x).

(** ** The globals of the module *)

(** The colours the program gives a target: [(0,0,1,1)], [(1,0,0,1)] and
    [(1,1,0,1)]. *)
Inductive Color := Blue | Red | Yellow.

Record Globals := mkGlobals {
  asteroids : list Color;          (* the colour of each target *)
  chosenNum : nat;
  localNum2 : nat;
  mouseOver : bool;
  outputDataContents : string;
  timerOverall : option Q;         (* unbound until the first click *)
  timerRed : option Q;             (* unbound until the first click on red *)
  timerOverallNew : Q;
  timerRedNew : Q
}.

(** The values the module binds when it is loaded. *)
Definition mouseOver_0 : bool := false.
Definition outputDataContents_0 : string :=
  "timeStamp,event,timeSinceLastClick,timeSinceLastRedClick" +:+ LF.
Definition timerOverallNew_0 : Q := 99999%Q.
Definition timerRedNew_0 : Q := 99999%Q.

(** [asteroids[i].setColor(c)]; the index raises out of range. *)
Definition setColor (i : nat) (c : Color) (a : list Color) : option (list Color) :=
  match a !! i with
  | Some _ => Some (<[i:=c]> a)
  | None => None
  end.

(** ** [AsteroidsDemo.__init__] *)

(** [for i in range(17)]: each turn appends a blue target. *)
Fixpoint load_asteroids (n : nat) (a : list Color) : list Color :=
  match n with
  | O => a
  | S k => load_asteroids k (a ++ [Blue])
  end.

Definition init : M Globals :=
  let a := load_asteroids 17 [] in
  c ← randrange 17;
  l ← randrange 17;
  l ← redraw 17 (fun l => (c =? l)%nat) l;
  a ← lift (setColor c Red a);
  d ← now;
  mret {| asteroids := a;
          chosenNum := c;
          localNum2 := l;
          mouseOver := mouseOver_0;
          outputDataContents :=
            outputDataContents_0 +:+ strftime_HMS d +:+ ",firstRedAppears,," +:+ LF;
          timerOverall := None;
          timerRed := None;
          timerOverallNew := timerOverallNew_0;
          timerRedNew := timerRedNew_0 |}.

(** ** [makeid] *)

Definition characters : string :=
  "ABCDEFGHIJKLMNOPQRSTUVWXYZabcdefghijklmnopqrstuvwxyz0123456789".
Definition charactersLength : nat := String.length characters.

(** [for i in range(length): result = result + characters[randrange(...)]] *)
Fixpoint makeid_loop (length : nat) (result : string) : M string :=
  match length with
  | O => mret result
  | S k =>
      d ← randrange charactersLength;
      c ← lift (String.get d characters);
      makeid_loop k (result +:+ String c "")
  end.

Definition makeid (length : nat) : M string := makeid_loop length "".

(** ** [mouseTask] *)

(** What a frame finds: [None] when [hasMouse()] is false; otherwise the
    tags of the entries the collision pass over [asteroids[chosenNum]] put
    in the queue, in the order [sortEntries] leaves them. *)
Definition mouseTask (mouse : option (list nat)) (st : Globals) : M Globals :=
  match mouse with
  | Some entries =>
      _ ← lift (asteroids st !! chosenNum st);
      match entries with
      | i :: _ =>
          if (chosenNum st =? i)%nat then
            mret {| asteroids := asteroids st;
                    chosenNum := chosenNum st;
                    localNum2 := localNum2 st;
                    mouseOver := true;
                    outputDataContents := outputDataContents st;
                    timerOverall := timerOverall st;
                    timerRed := timerRed st;
                    timerOverallNew := timerOverallNew st;
                    timerRedNew := timerRedNew st |}
          else mret st
      | [] => mret st
      end
  | None => mret st
  end.

(** ** [everySecond] and [everySecondRed] *)

Definition everySecond (st : Globals) : M Globals :=
  a ← lift (setColor (localNum2 st) Blue (asteroids st));
  l ← randrange 17;
  l ← redraw 17 (fun l => (chosenNum st =? l)%nat) l;
  a ← lift (setColor l Yellow a);
  mret {| asteroids := a;
          chosenNum := chosenNum st;
          localNum2 := l;
          mouseOver := mouseOver st;
          outputDataContents := outputDataContents st;
          timerOverall := timerOverall st;
          timerRed := timerRed st;
          timerOverallNew := timerOverallNew st;
          timerRedNew := timerRedNew st |}.

Definition everySecondRed (st : Globals) : M Globals :=
  a ← lift (setColor (chosenNum st) Blue (asteroids st));
  n ← randrange 17;
  n ← redraw 17 (fun n => ((chosenNum st =? n)%nat || (localNum2 st =? n)%nat)) n;
  a ← lift (setColor n Red a);
  mret {| asteroids := a;
          chosenNum := n;
          localNum2 := localNum2 st;
          mouseOver := mouseOver st;
          outputDataContents := outputDataContents st;
          timerOverall := timerOverall st;
          timerRed := timerRed st;
          timerOverallNew := timerOverallNew st;
          timerRedNew := timerRedNew st |}.

(** ** [changeColor], [saveDataExit] and the driver *)

Section Handlers.

(** Python's [str] on the number a timer holds. *)
Variable str : Q -> string.

Definition changeColor (st : Globals) : M Globals :=
  if mouseOver st then
    t ← perf_counter;
    let tO := (t - timerOverallNew st)%Q in
    let tO := if Qltb tO 0 then 0%Q else tO in
    tON ← perf_counter;
    t ← perf_counter;
    let tR := (t - timerRedNew st)%Q in
    let tR := if Qltb tR 0 then 0%Q else tR in
    tRN ← perf_counter;
    d ← now;
    mret {| asteroids := asteroids st;
            chosenNum := chosenNum st;
            localNum2 := localNum2 st;
            mouseOver := false;
            outputDataContents :=
              outputDataContents st +:+ strftime_HMS d +:+ ",leftClkInsideRed,"
                +:+ str tO +:+ "," +:+ str tR +:+ LF;
            timerOverall := Some tO;
            timerRed := Some tR;
            timerOverallNew := tON;
            timerRedNew := tRN |}
  else
    t ← perf_counter;
    let tO := (t - timerOverallNew st)%Q in
    let tO := if Qltb tO 0 then 0%Q else tO in
    tON ← perf_counter;
    d ← now;
    mret {| asteroids := asteroids st;
            chosenNum := chosenNum st;
            localNum2 := localNum2 st;
            mouseOver := mouseOver st;
            outputDataContents :=
              outputDataContents st +:+ strftime_HMS d +:+ ",leftClkOutsideRed,"
                +:+ str tO +:+ "," +:+ LF;
            timerOverall := Some tO;
            timerRed := timerRed st;
            timerOverallNew := tON;
            timerRedNew := timerRedNew st |}.

(** What the driver calls: [mouseTask] at every frame, [changeColor] on
    ["mouse1"], the two tasks every two seconds. The driver runs one
    callback at a time, in any order. *)
Inductive Event :=
| EvMouseTask (mouse : option (list nat))
| EvMouse1
| EvEverySecond
| EvEverySecondRed.

Definition dispatch (ev : Event) (st : Globals) : M Globals :=
  match ev with
  | EvMouseTask mouse => mouseTask mouse st
  | EvMouse1 => changeColor st
  | EvEverySecond => everySecond st
  | EvEverySecondRed => everySecondRed st
  end.

Fixpoint run (evs : list Event) (st : Globals) : M Globals :=
  match evs with
  | [] => mret st
  | ev :: evs' => st' ← dispatch ev st; run evs' st'
  end.

(** The program from its start: [__init__], then the callbacks. *)
Definition session (evs : list Event) : M Globals :=
  st ← init; run evs st.

End Handlers.

(** The file [saveDataExit] writes before it leaves the process. *)
Record File := mkFile { fileName : string; fileContents : string }.

Definition saveDataExit (st : Globals) : M File :=
  id ← makeid 16;
  let fileNameSave := "dataFile_" +:+ id +:+ ".txt" in
  mret {| fileName := fileNameSave; fileContents := outputDataContents st |}.

(** The program from its start to ["escape"]. *)
Definition session_to_exit (str : Q -> string) (evs : list Event) : M File :=
  st ← session str evs; saveDataExit st.

(** ** Reading the written file

    The lines of a text, and the fields of a line. *)

(** The pieces of [s] between the occurrences of [sep]. *)
Fixpoint split_at (sep : ascii) (s : string) : list string :=
  match s with
  | EmptyString => [""]
  | String c s' =>
      if Ascii.eqb c sep then "" :: split_at sep s'
      else match split_at sep s' with
           | piece :: pieces => String c piece :: pieces
           | [] => [String c ""]
           end
  end.

(** The fields of a comma-separated line. *)
Definition fields (line : string) : list string := split_at "," line.

(** The lines of a text in which a line feed ends every line. *)
Definition lines (text : string) : list string :=
  let pieces := split_at (ascii_of_nat 10) text in
  match reverse pieces with
  | "" :: front => reverse front
  | _ => pieces
  end.

(** The characters of [A-Za-z0-9]. *)
Definition alphanumeric (c : ascii) : bool :=
  let n := nat_of_ascii c in
  ((65 <=? n) && (n <=? 90) || (97 <=? n) && (n <=? 122) || (48 <=? n) && (n <=? 57))%nat.

(** ** The active tick as the specification words it

    "Pick a new [activeIndex] uniformly at random from [0, N) subject to
    [activeIndex != nextIndex]", resampling on collision: the tick with
    [localNum2] as the only value the loop rejects. It is here to be
    compared with [everySecondRed]. *)
Definition everySecondRed_next_only (st : Globals) : M Globals :=
  a ← lift (setColor (chosenNum st) Blue (asteroids st));
  n ← randrange 17;
  n ← redraw 17 (fun n => (localNum2 st =? n)%nat) n;
  a ← lift (setColor n Red a);
  mret {| asteroids := a;
          chosenNum := n;
          localNum2 := localNum2 st;
          mouseOver := mouseOver st;
          outputDataContents := outputDataContents st;
          timerOverall := timerOverall st;
          timerRed := timerRed st;
          timerOverallNew := timerOverallNew st;
          timerRedNew := timerRedNew st |}.

(** ** Notions the statements use *)

(** The elapsed time a click records for the difference [q] between the
    clock and a cursor: [x = q] followed by [if x < 0: x = 0]. *)
Definition clamped (q : Q) : Q := if Qltb q 0 then 0%Q else q.

(** The two selected targets differ, and both are targets. *)
Definition selection_ok (st : Globals) : Prop :=
  chosenNum st <> localNum2 st
  /\ chosenNum st < 17
  /\ localNum2 st < 17
  /\ length (asteroids st) = 17.

(** A callback that is neither a click nor a frame whose collision pass
    found an entry. *)
Definition quiet (ev : Event) : bool :=
  match ev with
  | EvMouseTask None | EvMouseTask (Some []) => true
  | EvMouseTask (Some (_ :: _)) => false
  | EvMouse1 => false
  | EvEverySecond | EvEverySecondRed => true
  end.

Definition is_click (ev : Event) : bool :=
  match ev with
  | EvMouse1 => true
  | _ => false
  end.

(** [c] does not occur in [s]. *)
Fixpoint free_of (c : ascii) (s : string) : bool :=
  match s with
  | EmptyString => true
  | String c' s' => negb (Ascii.eqb c' c) && free_of c s'
  end.

(** All the characters of [s] satisfy [p]. *)
Fixpoint string_forall (p : ascii -> bool) (s : string) : bool :=
  match s with
  | EmptyString => true
  | String c s' => p c && string_forall p s'
  end.

(** ** A sample run

    Numbers are rendered as a fraction in the examples. *)
Definition sample_str (q : Q) : string :=
  pretty (Qnum q) +:+ "/" +:+ pretty (Zpos (Qden q)).

Definition sample_env : Env :=
  {| draws := [3; 3; 5; 3; 5; 7; 7; 4; 0; 1; 2; 3; 4; 5; 6; 7; 8; 9; 10; 11; 12; 13; 14; 61];
     perf := [(12 # 1)%Q; (25 # 2)%Q; (25 # 2)%Q; (13 # 1)%Q; (14 # 1)%Q; (29 # 2)%Q];
     wall := [mkDatetime 9 5 59; mkDatetime 9 6 1; mkDatetime 9 6 3] |}.

(** The state [__init__] leaves when the draws are 3, then 3 again and 5. *)
Definition sample_state : Globals :=
  {| asteroids := <[3:=Red]> (replicate 17 Blue);
     chosenNum := 3;
     localNum2 := 5;
     mouseOver := false;
     outputDataContents :=
       outputDataContents_0 +:+ "09:05:59,firstRedAppears,," +:+ LF;
     timerOverall := None;
     timerRed := None;
     timerOverallNew := 99999%Q;
     timerRedNew := 99999%Q |}.

(** A machine whose performance counter has passed 99999 seconds (a
    little under 28 hours) when the first click arrives. *)
Definition late_env : Env :=
  {| draws := [3; 5];
     perf := [100000%Q; 100000%Q; 100000%Q; 100000%Q];
     wall := [mkDatetime 9 5 59; mkDatetime 9 6 1] |}.

(** [sample_state] once a frame has found the mouse over target 3. *)
Definition sample_state_over : Globals :=
  {| asteroids := asteroids sample_state;
     chosenNum := 3;
     localNum2 := 5;
     mouseOver := true;
     outputDataContents := outputDataContents sample_state;
     timerOverall := None;
     timerRed := None;
     timerOverallNew := 99999%Q;
     timerRedNew := 99999%Q |}.

(** What the tick and the click of the examples read. *)
Definition tick_env : Env := {| draws := [3; 5; 7; 2]; perf := []; wall := [] |}.

Definition click_env : Env :=
  {| draws := [];
     perf := [(12 # 1)%Q; (25 # 2)%Q; (25 # 2)%Q; (13 # 1)%Q];
     wall := [mkDatetime 9 6 1] |}.

(** ** Notions for the further properties *)

(** What the targets show: the chosen one is red, the pre-selected one
    blue or yellow, every other one blue. *)
Definition colours_ok (st : Globals) : Prop :=
  asteroids st !! chosenNum st = Some Red
  /\ (forall i, i < 17 -> i <> chosenNum st -> i <> localNum2 st ->
        asteroids st !! i = Some Blue)
  /\ (asteroids st !! localNum2 st = Some Blue
      \/ asteroids st !! localNum2 st = Some Yellow).

(** The number of clicks among the callbacks. *)
Fixpoint count_clicks (evs : list Event) : nat :=
  match evs with
  | [] => 0
  | ev :: evs' => (if is_click ev then 1 else 0) + count_clicks evs'
  end.

(** A text made of lines, a line feed after each. *)
Fixpoint concat_lines (ls : list string) : string :=
  match ls with
  | [] => ""
  | l :: ls' => l +:+ LF +:+ concat_lines ls'
  end.

(** A line of the log that a click wrote: the time of day, the kind of
    click and the elapsed times, the second of them left out for a click
    outside the red target. *)
Definition click_line (str : Q -> string) (r : string) : Prop :=
  exists d a b,
    valid_datetime d = true
    /\ (r = strftime_HMS d +:+ ",leftClkInsideRed," +:+ str a +:+ "," +:+ str b
        \/ r = strftime_HMS d +:+ ",leftClkOutsideRed," +:+ str a +:+ ",").

(** [r] is the line that the click taking [st], with the environment
    [e], to [st'] writes: the time of day the click reads, the kind of
    click that [mouseOver] tells before the click, and the elapsed times
    the click leaves in [timerOverall] and, for a click on red, in
    [timerRed]. *)
Definition record_of_click (str : Q -> string) (st : Globals) (e : Env)
    (st' : Globals) (r : string) : Prop :=
  exists d d1,
    wall e !! 0 = Some d
    /\ timerOverall st' = Some d1
    /\ if mouseOver st then
         exists d2,
           timerRed st' = Some d2
           /\ r = strftime_HMS d +:+ ",leftClkInsideRed," +:+ str d1 +:+ "," +:+ str d2
       else
         r = strftime_HMS d +:+ ",leftClkOutsideRed," +:+ str d1 +:+ ",".

(** A callback that is not a frame whose collision pass found an entry. *)
Definition no_entry (ev : Event) : bool :=
  match ev with
  | EvMouseTask (Some (_ :: _)) => false
  | _ => true
  end.

(** The identifier the draws [ds] spell: [characters[d]] for each draw. *)
Fixpoint id_of_draws (ds : list nat) : option string :=
  match ds with
  | [] => Some ""
  | d :: ds' =>
      match String.get d characters, id_of_draws ds' with
      | Some c, Some s => Some (String c s)
      | _, _ => None
      end
  end.

(** A rendering of numbers for the examples that need one without
    commas and line feeds. *)
Definition plain_str (q : Q) : string := "0.5".

(** The environment holds what the callback [ev] reads in the state
    [st]: clock readings and a time of day for a click, draws of which one
    is accepted for a tick. *)
Definition supplies (ev : Event) (st : Globals) (e : Env) : Prop :=
  match ev with
  | EvMouseTask _ => True
  | EvMouse1 =>
      (if mouseOver st then 4 else 2) <= length (perf e)
      /\ exists d, wall e !! 0 = Some d /\ valid_datetime d = true
  | EvEverySecond =>
      Forall (fun d => d < 17) (draws e)
      /\ exists d, d ∈ draws e /\ d <> chosenNum st
  | EvEverySecondRed =>
      Forall (fun d => d < 17) (draws e)
      /\ exists d, d ∈ draws e /\ d <> chosenNum st /\ d <> localNum2 st
  end.

(** No character occurs twice in [s]. *)
Fixpoint distinct (s : string) : bool :=
  match s with
  | EmptyString => true
  | String c s' => free_of c s' && distinct s'
  end.

(** What two clicks read, the mouse staying over target 3. *)
Definition hover_env : Env :=
  {| draws := [];
     perf := [(12 # 1)%Q; (25 # 2)%Q; (25 # 2)%Q; (13 # 1)%Q;
              (14 # 1)%Q; (29 # 2)%Q; (29 # 2)%Q; (15 # 1)%Q];
     wall := [mkDatetime 9 6 1; mkDatetime 9 6 3] |}.

(** * Properties *)

#[local] Arguments Nat.ltb : simpl never.
#[local] Arguments Nat.eqb : simpl never.

(** ** Runs of the effect monad *)

Lemma bind_Some {A B} (m : M A) (k : A -> M B) (e : Env) (r : B * Env) :
  (m ≫= k) e = Some r <-> exists a e1, m e = Some (a, e1) /\ k a e1 = Some r.
Proof.
  unfold mbind, M_bind. split.
  - destruct (m e) as [[a e1]|]; [eauto | discriminate].
  - intros (a & e1 & -> & Hk). exact Hk.
Qed.

Lemma mret_Some {A} (a : A) (e : Env) (r : A * Env) :
  (mret a : M A) e = Some r <-> r = (a, e).
Proof. unfold mret, M_ret. split; congruence. Qed.

Lemma lift_Some {A} (o : option A) (e : Env) (r : A * Env) :
  lift o e = Some r <-> exists a, o = Some a /\ r = (a, e).
Proof.
  unfold lift. destruct o as [a|]; split.
  - intros [= <-]. eauto.
  - intros (a' & [= <-] & ->). reflexivity.
  - discriminate.
  - intros (a' & [=] & _).
Qed.

Lemma randrange_Some (n : nat) (e : Env) (d : nat) (e' : Env) :
  randrange n e = Some (d, e') <->
  exists ds, draws e = d :: ds /\ d < n /\ e' = mkEnv ds (perf e) (wall e).
Proof.
  unfold randrange. destruct (draws e) as [|d0 ds]; split.
  - discriminate.
  - intros (ds' & [=] & _).
  - destruct (Nat.ltb_spec d0 n); [|discriminate].
    intros [= <- <-]. eauto.
  - intros (ds' & [= <- <-] & Hlt & ->).
    destruct (Nat.ltb_spec d0 n); [reflexivity | lia].
Qed.

Lemma perf_counter_Some (e : Env) (t : Q) (e' : Env) :
  perf_counter e = Some (t, e') <->
  exists ts, perf e = t :: ts /\ e' = mkEnv (draws e) ts (wall e).
Proof.
  unfold perf_counter. destruct (perf e) as [|t0 ts]; split.
  - discriminate.
  - intros (ts' & [=] & _).
  - intros [= <- <-]. eauto.
  - intros (ts' & [= <- <-] & ->). reflexivity.
Qed.

Lemma now_Some (e : Env) (d : datetime) (e' : Env) :
  now e = Some (d, e') <->
  exists ds, wall e = d :: ds /\ valid_datetime d = true
             /\ e' = mkEnv (draws e) (perf e) ds.
Proof.
  unfold now. destruct (wall e) as [|d0 ds]; split.
  - discriminate.
  - intros (ds' & [=] & _).
  - destruct (valid_datetime d0) eqn:Hv; [|discriminate].
    intros [= <- <-]. eauto.
  - intros (ds' & [= <- <-] & Hv & ->). rewrite Hv. reflexivity.
Qed.

Lemma redraw_Some (n : nat) (reject : nat -> bool) (x : nat) (e : Env)
    (y : nat) (e' : Env) :
  redraw n reject x e = Some (y, e') <->
  exists ds, while_randrange n reject x (draws e) = Some (y, ds)
             /\ e' = mkEnv ds (perf e) (wall e).
Proof.
  unfold redraw. destruct (while_randrange n reject x (draws e)) as [[y0 ds]|]; split.
  - intros [= <- <-]. eauto.
  - intros (ds' & [= <- <-] & ->). reflexivity.
  - discriminate.
  - intros (ds' & [=] & _).
Qed.

(** [redraw] is the loop over [randrange]. *)
Lemma redraw_unfold (n : nat) (reject : nat -> bool) (x : nat) (e : Env) :
  redraw n reject x e =
  (if reject x then d ← randrange n; redraw n reject d else mret x) e.
Proof.
  unfold redraw at 1. destruct e as [ds ts ws]. simpl.
  unfold mbind, M_bind, randrange, redraw.
  destruct ds as [|d ds]; simpl; destruct (reject x); simpl; try reflexivity.
  destruct (d <? n)%nat; reflexivity.
Qed.

(** ** The rejection loop *)

(** The loop returns the first candidate it does not reject: the
    candidates are the value it starts from and then the draws, each of
    them below [n]. *)
Lemma while_randrange_first (n : nat) (reject : nat -> bool) (ds : list nat) :
  forall (x y : nat) (ds' : list nat),
  while_randrange n reject x ds = Some (y, ds') <->
  exists rejected,
    x :: ds = rejected ++ y :: ds'
    /\ Forall (fun r => reject r = true) rejected
    /\ reject y = false
    /\ Forall (fun d => d < n) (drop 1 (rejected ++ [y])).
Proof.
  induction ds as [|d ds IH]; intros x y ds'; simpl.
  - destruct (reject x) eqn:Hx; split.
    + discriminate.
    + intros ([|r rej] & Heq & Hrej & Hy & _); simpl in Heq.
      * injection Heq as <- <-. congruence.
      * injection Heq as <- Heq. destruct rej; discriminate.
    + intros [= <- <-]. exists []. simpl. auto.
    + intros ([|r rej] & Heq & Hrej & Hy & _); simpl in Heq.
      * injection Heq as <- <-. reflexivity.
      * injection Heq as <- Heq. destruct rej; discriminate.
  - destruct (reject x) eqn:Hx; split.
    + destruct (Nat.ltb_spec d n) as [Hd|Hd]; [|discriminate].
      intros H. apply IH in H as (rej & Heq & Hrej & Hy & Hlt).
      exists (x :: rej). simpl. rewrite Heq. repeat split; auto.
      destruct rej as [|r rej]; simpl in *.
      * injection Heq as <- _. auto.
      * injection Heq as <- _. constructor; [exact Hd | exact Hlt].
    + intros ([|r rej] & Heq & Hrej & Hy & Hlt); simpl in Heq.
      * injection Heq as <- _. congruence.
      * injection Heq as <- Heq. simpl in Hlt.
        assert (Hd : d < n).
        { destruct rej as [|r rej]; simpl in *.
          - injection Heq as <- _. inversion Hlt; assumption.
          - injection Heq as <- _. inversion Hlt; assumption. }
        destruct (Nat.ltb_spec d n); [|lia].
        apply IH. exists rej. repeat split; auto.
        -- inversion Hrej; assumption.
        -- destruct rej as [|r rej]; simpl in *; [auto|].
           inversion Hlt; assumption.
    + intros [= <- <-]. exists []. simpl. auto.
    + intros ([|r rej] & Heq & Hrej & Hy & _); simpl in Heq.
      * injection Heq as <- <-. reflexivity.
      * injection Heq as <- _. inversion Hrej; congruence.
Qed.

(** A draw followed by the loop, [x = randrange(n)] and then
    [while reject(x): x = randrange(n)], returns the first draw that is
    not rejected, and leaves the draws after it. *)
Lemma draw_until_Some (n : nat) (reject : nat -> bool) (e : Env) (y : nat) (e' : Env) :
  (exists x e1, randrange n e = Some (x, e1) /\ redraw n reject x e1 = Some (y, e')) <->
  exists rejected rest,
    draws e = rejected ++ y :: rest
    /\ Forall (fun r => r < n /\ reject r = true) rejected
    /\ y < n /\ reject y = false
    /\ e' = mkEnv rest (perf e) (wall e).
Proof.
  split.
  - intros (x & e1 & Hx & Hy).
    apply randrange_Some in Hx as (ds & Hd & Hxn & ->).
    apply redraw_Some in Hy as (rest & Hy & ->). simpl in *.
    apply while_randrange_first in Hy as (rej & Heq & Hrej & Hacc & Hlt).
    exists rej, rest. rewrite Hd, Heq. repeat split; auto.
    + destruct rej as [|r rej]; simpl in *; [constructor|].
      injection Heq as <- _.
      inversion Hrej as [|? ? Hr Hrej']; subst.
      constructor; [split; assumption|].
      apply Forall_app in Hlt as [Hlt _].
      clear - Hlt Hrej'. induction rej as [|r rej IH]; [constructor|].
      inversion Hlt; inversion Hrej'; subst. constructor; auto.
    + destruct rej as [|r rej]; simpl in *.
      * injection Heq as <- _. assumption.
      * apply Forall_app in Hlt as [_ Hlt]. inversion Hlt; assumption.
  - intros (rej & rest & Hd & Hrej & Hy & Hacc & ->).
    destruct rej as [|r rej]; simpl in Hd.
    + exists y, (mkEnv rest (perf e) (wall e)). split.
      * apply randrange_Some. eauto.
      * apply redraw_Some. exists rest. split; [|reflexivity]. simpl.
        apply while_randrange_first. exists []. simpl. auto.
    + inversion Hrej as [|? ? [Hr Hrr] Hrej']; subst.
      exists r, (mkEnv (rej ++ y :: rest) (perf e) (wall e)). split.
      * apply randrange_Some. eauto.
      * apply redraw_Some. exists rest. split; [|reflexivity]. simpl.
        apply while_randrange_first. exists (r :: rej). simpl.
        repeat split; auto.
        -- constructor; [assumption|].
           eapply Forall_impl; [exact Hrej'|]. simpl. tauto.
        -- apply Forall_app. split.
           ++ eapply Forall_impl; [exact Hrej'|]. simpl. tauto.
           ++ auto.
Qed.

Lemma setColor_Some (i : nat) (c : Color) (a a' : list Color) :
  setColor i c a = Some a' <-> i < length a /\ a' = <[i:=c]> a.
Proof.
  unfold setColor. destruct (a !! i) as [c0|] eqn:Hi; split.
  - intros [= <-]. split; [|reflexivity]. eapply lookup_lt_Some; eauto.
  - intros [_ ->]. reflexivity.
  - discriminate.
  - intros [Hlt _]. apply lookup_ge_None in Hi. lia.
Qed.

(** ** What a completed call of each handler did *)

Lemma everySecond_Some (st : Globals) (e : Env) (st' : Globals) (e' : Env) :
  everySecond st e = Some (st', e') <->
  exists rejected l rest,
    draws e = rejected ++ l :: rest
    /\ Forall (fun r => r < 17 /\ r = chosenNum st) rejected
    /\ l < 17 /\ l <> chosenNum st
    /\ localNum2 st < length (asteroids st) /\ l < length (asteroids st)
    /\ st' = {| asteroids := <[l:=Yellow]> (<[localNum2 st:=Blue]> (asteroids st));
                chosenNum := chosenNum st;
                localNum2 := l;
                mouseOver := mouseOver st;
                outputDataContents := outputDataContents st;
                timerOverall := timerOverall st;
                timerRed := timerRed st;
                timerOverallNew := timerOverallNew st;
                timerRedNew := timerRedNew st |}
    /\ e' = mkEnv rest (perf e) (wall e).
Proof.
  split.
  - intros H. unfold everySecond in H.
    apply bind_Some in H as (a & e1 & Ha & H).
    apply lift_Some in Ha as (a0 & Ha & [= -> ->]).
    apply bind_Some in H as (x & e2 & Hx & H).
    apply bind_Some in H as (l & e3 & Hl & H).
    apply bind_Some in H as (a1 & e4 & Ha1 & H).
    apply lift_Some in Ha1 as (a2 & Ha1 & [= -> ->]).
    apply mret_Some in H as [= -> ->].
    apply setColor_Some in Ha as [Hl2 ->].
    apply setColor_Some in Ha1 as [Hl' ->].
    rewrite length_insert in Hl'.
    destruct (proj1 (draw_until_Some 17 (fun l => (chosenNum st =? l)) e l e3))
      as (rej & rest & Hd & Hrej & Hlt & Hacc & ->); [eauto|].
    exists rej, l, rest. repeat split; auto.
    + eapply Forall_impl; [exact Hrej|]. simpl. intros r [? Hr].
      apply Nat.eqb_eq in Hr. auto.
    + apply Nat.eqb_neq in Hacc. auto.
  - intros (rej & l & rest & Hd & Hrej & Hlt & Hne & Hl2 & Hl & -> & ->).
    destruct (proj2 (draw_until_Some 17 (fun l => (chosenNum st =? l)) e l
                       (mkEnv rest (perf e) (wall e)))) as (x & e1 & Hx & Hy).
    { exists rej, rest. repeat split; auto.
      - eapply Forall_impl; [exact Hrej|]. simpl. intros r [? ->].
        split; [assumption | apply Nat.eqb_refl].
      - apply Nat.eqb_neq. auto. }
    unfold everySecond.
    apply bind_Some. eexists _, e. split.
    { apply lift_Some. eexists. split; [apply setColor_Some; eauto | reflexivity]. }
    apply bind_Some. exists x, e1. split; [exact Hx|].
    apply bind_Some. eexists l, _. split; [exact Hy|].
    apply bind_Some. eexists _, _. split.
    { apply lift_Some. eexists. split; [|reflexivity].
      apply setColor_Some. rewrite length_insert. eauto. }
    apply mret_Some. reflexivity.
Qed.

Lemma everySecondRed_Some (st : Globals) (e : Env) (st' : Globals) (e' : Env) :
  everySecondRed st e = Some (st', e') <->
  exists rejected n rest,
    draws e = rejected ++ n :: rest
    /\ Forall (fun r => r < 17 /\ (r = chosenNum st \/ r = localNum2 st)) rejected
    /\ n < 17 /\ n <> chosenNum st /\ n <> localNum2 st
    /\ chosenNum st < length (asteroids st) /\ n < length (asteroids st)
    /\ st' = {| asteroids := <[n:=Red]> (<[chosenNum st:=Blue]> (asteroids st));
                chosenNum := n;
                localNum2 := localNum2 st;
                mouseOver := mouseOver st;
                outputDataContents := outputDataContents st;
                timerOverall := timerOverall st;
                timerRed := timerRed st;
                timerOverallNew := timerOverallNew st;
                timerRedNew := timerRedNew st |}
    /\ e' = mkEnv rest (perf e) (wall e).
Proof.
  set (reject := fun n => (chosenNum st =? n) || (localNum2 st =? n)).
  assert (Hreject : forall r, reject r = true <-> r = chosenNum st \/ r = localNum2 st).
  { intros r. unfold reject. rewrite orb_true_iff, !Nat.eqb_eq.
    split; (intros [?|?]; [left|right]); congruence. }
  assert (Haccept : forall r, reject r = false <-> r <> chosenNum st /\ r <> localNum2 st).
  { intros r. unfold reject. rewrite orb_false_iff, !Nat.eqb_neq.
    split; (intros [? ?]; split); congruence. }
  split.
  - intros H. unfold everySecondRed in H. fold reject in H.
    apply bind_Some in H as (a & e1 & Ha & H).
    apply lift_Some in Ha as (a0 & Ha & [= -> ->]).
    apply bind_Some in H as (x & e2 & Hx & H).
    apply bind_Some in H as (n & e3 & Hn & H).
    apply bind_Some in H as (a1 & e4 & Ha1 & H).
    apply lift_Some in Ha1 as (a2 & Ha1 & [= -> ->]).
    apply mret_Some in H as [= -> ->].
    apply setColor_Some in Ha as [Hc ->].
    apply setColor_Some in Ha1 as [Hn' ->].
    rewrite length_insert in Hn'.
    destruct (proj1 (draw_until_Some 17 reject e n e3))
      as (rej & rest & Hd & Hrej & Hlt & Hacc & ->); [eauto|].
    apply Haccept in Hacc as [? ?].
    exists rej, n, rest. repeat split; auto.
    eapply Forall_impl; [exact Hrej|]. simpl. intros r [? Hr].
    apply Hreject in Hr. auto.
  - intros (rej & n & rest & Hd & Hrej & Hlt & Hne1 & Hne2 & Hc & Hn & -> & ->).
    destruct (proj2 (draw_until_Some 17 reject e n (mkEnv rest (perf e) (wall e))))
      as (x & e1 & Hx & Hy).
    { exists rej, rest. repeat split; auto.
      - eapply Forall_impl; [exact Hrej|]. simpl. intros r [? Hr].
        split; [assumption | apply Hreject; assumption].
      - apply Haccept. auto. }
    unfold everySecondRed. fold reject.
    apply bind_Some. eexists _, e. split.
    { apply lift_Some. eexists. split; [apply setColor_Some; eauto | reflexivity]. }
    apply bind_Some. exists x, e1. split; [exact Hx|].
    apply bind_Some. eexists n, _. split; [exact Hy|].
    apply bind_Some. eexists _, _. split.
    { apply lift_Some. eexists. split; [|reflexivity].
      apply setColor_Some. rewrite length_insert. eauto. }
    apply mret_Some. reflexivity.
Qed.

Lemma init_Some (e : Env) (st : Globals) (e' : Env) :
  init e = Some (st, e') <->
  exists c rejected l rest d ws,
    draws e = c :: rejected ++ l :: rest
    /\ c < 17
    /\ Forall (fun r => r < 17 /\ r = c) rejected
    /\ l < 17 /\ l <> c
    /\ wall e = d :: ws /\ valid_datetime d = true
    /\ st = {| asteroids := <[c:=Red]> (replicate 17 Blue);
               chosenNum := c;
               localNum2 := l;
               mouseOver := false;
               outputDataContents :=
                 outputDataContents_0 +:+ strftime_HMS d +:+ ",firstRedAppears,," +:+ LF;
               timerOverall := None;
               timerRed := None;
               timerOverallNew := 99999%Q;
               timerRedNew := 99999%Q |}
    /\ e' = mkEnv rest (perf e) ws.
Proof.
  split.
  - intros H. unfold init in H.
    apply bind_Some in H as (c & e1 & Hc & H).
    apply bind_Some in H as (x & e2 & Hx & H).
    apply bind_Some in H as (l & e3 & Hl & H).
    apply bind_Some in H as (a & e4 & Ha & H).
    apply lift_Some in Ha as (a0 & Ha & [= -> ->]).
    apply bind_Some in H as (d & e5 & Hd & H).
    apply mret_Some in H as [= -> ->].
    apply randrange_Some in Hc as (ds & Hds & Hc & ->).
    apply setColor_Some in Ha as [_ ->].
    apply now_Some in Hd as (ws & Hw & Hv & ->).
    destruct (proj1 (draw_until_Some 17 (fun l => (c =? l))
                       (mkEnv ds (perf e) (wall e)) l e3))
      as (rej & rest & Hd & Hrej & Hlt & Hacc & ->); [eauto|].
    simpl in *. subst ds.
    exists c, rej, l, rest, d, ws. repeat split; auto.
    + eapply Forall_impl; [exact Hrej|]. simpl. intros r [? Hr].
      apply Nat.eqb_eq in Hr. auto.
    + apply Nat.eqb_neq in Hacc. auto.
  - intros (c & rej & l & rest & d & ws & Hds & Hc & Hrej & Hl & Hne & Hw & Hv & -> & ->).
    destruct (proj2 (draw_until_Some 17 (fun l => (c =? l))
                       (mkEnv (rej ++ l :: rest) (perf e) (wall e)) l
                       (mkEnv rest (perf e) (wall e)))) as (x & e1 & Hx & Hy).
    { exists rej, rest. repeat split; auto.
      - eapply Forall_impl; [exact Hrej|]. simpl. intros r [? ->].
        split; [assumption | apply Nat.eqb_refl].
      - apply Nat.eqb_neq. auto. }
    unfold init.
    apply bind_Some. eexists c, _. split; [apply randrange_Some; eauto|].
    apply bind_Some. exists x, e1. split; [exact Hx|].
    apply bind_Some. eexists l, _. split; [exact Hy|].
    apply bind_Some. eexists _, _. split.
    { apply lift_Some. eexists. split; [|reflexivity].
      apply setColor_Some. split; [simpl; lia | reflexivity]. }
    apply bind_Some. eexists d, _. split.
    { apply now_Some. exists ws. simpl. eauto. }
    apply mret_Some. reflexivity.
Qed.

Lemma mouseTask_Some (mouse : option (list nat)) (st : Globals) (e : Env)
    (st' : Globals) (e' : Env) :
  mouseTask mouse st e = Some (st', e') <->
  e' = e /\
  match mouse with
  | None => st' = st
  | Some entries =>
      chosenNum st < length (asteroids st) /\
      match entries with
      | i :: _ =>
          if chosenNum st =? i then
            st' = {| asteroids := asteroids st;
                     chosenNum := chosenNum st;
                     localNum2 := localNum2 st;
                     mouseOver := true;
                     outputDataContents := outputDataContents st;
                     timerOverall := timerOverall st;
                     timerRed := timerRed st;
                     timerOverallNew := timerOverallNew st;
                     timerRedNew := timerRedNew st |}
          else st' = st
      | [] => st' = st
      end
  end.
Proof.
  unfold mouseTask. destruct mouse as [entries|].
  - rewrite bind_Some. split.
    + intros (c & e1 & Hc & H).
      apply lift_Some in Hc as (c0 & Hc & [= -> ->]).
      apply lookup_lt_Some in Hc.
      destruct entries as [|i entries]; [|destruct (chosenNum st =? i)];
        apply mret_Some in H as [= -> ->]; auto.
    + intros (-> & Hc & H).
      apply lookup_lt_is_Some in Hc as [c Hc].
      exists c, e. split; [apply lift_Some; eauto|].
      destruct entries as [|i entries]; [|destruct (chosenNum st =? i)];
        subst st'; apply mret_Some; reflexivity.
  - rewrite mret_Some. split; [intros [= -> ->] | intros [-> ->]]; auto.
Qed.

Section ClickHandler.

Variable str : Q -> string.

Lemma changeColor_Some (st : Globals) (e : Env) (st' : Globals) (e' : Env) :
  changeColor str st e = Some (st', e') <->
  if mouseOver st then
    exists t1 t2 t3 t4 ts d ws,
      perf e = t1 :: t2 :: t3 :: t4 :: ts
      /\ wall e = d :: ws /\ valid_datetime d = true
      /\ st' = {| asteroids := asteroids st;
                  chosenNum := chosenNum st;
                  localNum2 := localNum2 st;
                  mouseOver := false;
                  outputDataContents :=
                    outputDataContents st +:+ strftime_HMS d +:+ ",leftClkInsideRed,"
                      +:+ str (clamped (t1 - timerOverallNew st)) +:+ ","
                      +:+ str (clamped (t3 - timerRedNew st)) +:+ LF;
                  timerOverall := Some (clamped (t1 - timerOverallNew st));
                  timerRed := Some (clamped (t3 - timerRedNew st));
                  timerOverallNew := t2;
                  timerRedNew := t4 |}
      /\ e' = mkEnv (draws e) ts ws
  else
    exists t1 t2 ts d ws,
      perf e = t1 :: t2 :: ts
      /\ wall e = d :: ws /\ valid_datetime d = true
      /\ st' = {| asteroids := asteroids st;
                  chosenNum := chosenNum st;
                  localNum2 := localNum2 st;
                  mouseOver := false;
                  outputDataContents :=
                    outputDataContents st +:+ strftime_HMS d +:+ ",leftClkOutsideRed,"
                      +:+ str (clamped (t1 - timerOverallNew st)) +:+ "," +:+ LF;
                  timerOverall := Some (clamped (t1 - timerOverallNew st));
                  timerRed := timerRed st;
                  timerOverallNew := t2;
                  timerRedNew := timerRedNew st |}
      /\ e' = mkEnv (draws e) ts ws.
Proof.
  unfold changeColor. destruct (mouseOver st) eqn:Hover; split.
  - intros H.
    apply bind_Some in H as (t1 & e1 & H1 & H).
    apply bind_Some in H as (t2 & e2 & H2 & H).
    apply bind_Some in H as (t3 & e3 & H3 & H).
    apply bind_Some in H as (t4 & e4 & H4 & H).
    apply bind_Some in H as (d & e5 & Hd & H).
    apply mret_Some in H as [= -> ->].
    apply perf_counter_Some in H1 as (ts1 & Hp1 & ->).
    apply perf_counter_Some in H2 as (ts2 & Hp2 & ->).
    apply perf_counter_Some in H3 as (ts3 & Hp3 & ->).
    apply perf_counter_Some in H4 as (ts4 & Hp4 & ->).
    apply now_Some in Hd as (ws & Hw & Hv & ->).
    simpl in *. subst ts1 ts2 ts3.
    exists t1, t2, t3, t4, ts4, d, ws. repeat split; auto.
  - intros (t1 & t2 & t3 & t4 & ts & d & ws & Hp & Hw & Hv & -> & ->).
    apply bind_Some. eexists t1, _. split; [apply perf_counter_Some; eauto|].
    apply bind_Some. eexists t2, _. split; [apply perf_counter_Some; simpl; eauto|].
    apply bind_Some. eexists t3, _. split; [apply perf_counter_Some; simpl; eauto|].
    apply bind_Some. eexists t4, _. split; [apply perf_counter_Some; simpl; eauto|].
    apply bind_Some. eexists d, _. split; [apply now_Some; simpl; eauto|].
    apply mret_Some. reflexivity.
  - intros H.
    apply bind_Some in H as (t1 & e1 & H1 & H).
    apply bind_Some in H as (t2 & e2 & H2 & H).
    apply bind_Some in H as (d & e5 & Hd & H).
    apply mret_Some in H as [= -> ->].
    apply perf_counter_Some in H1 as (ts1 & Hp1 & ->).
    apply perf_counter_Some in H2 as (ts2 & Hp2 & ->).
    apply now_Some in Hd as (ws & Hw & Hv & ->).
    simpl in *. subst ts1.
    exists t1, t2, ts2, d, ws. repeat split; auto.
  - intros (t1 & t2 & ts & d & ws & Hp & Hw & Hv & -> & ->).
    apply bind_Some. eexists t1, _. split; [apply perf_counter_Some; eauto|].
    apply bind_Some. eexists t2, _. split; [apply perf_counter_Some; simpl; eauto|].
    apply bind_Some. eexists d, _. split; [apply now_Some; simpl; eauto|].
    apply mret_Some. reflexivity.
Qed.

End ClickHandler.

(** ** The clamp *)

Lemma Qltb_lt (x y : Q) : Qltb x y = true <-> (x < y)%Q.
Proof.
  unfold Qltb. rewrite negb_true_iff. split.
  - intros H. apply Qnot_le_lt. intros Hle.
    apply Qle_bool_iff in Hle. congruence.
  - intros H. destruct (Qle_bool y x) eqn:Hle; [|reflexivity].
    apply Qle_bool_iff in Hle. exfalso. eapply Qlt_not_le; eauto.
Qed.

Lemma clamped_nonneg (q : Q) : (0 <= clamped q)%Q.
Proof.
  unfold clamped. destruct (Qltb q 0) eqn:H.
  - apply Qle_refl.
  - apply Qnot_lt_le. intros Hlt. apply Qltb_lt in Hlt. congruence.
Qed.

Lemma clamped_neg (q : Q) : (q < 0)%Q -> clamped q = 0%Q.
Proof. intros H. unfold clamped. apply Qltb_lt in H. rewrite H. reflexivity. Qed.

Lemma clamped_pos (q : Q) : (0 <= q)%Q -> clamped q = q.
Proof.
  intros H. unfold clamped. destruct (Qltb q 0) eqn:Hlt; [|reflexivity].
  apply Qltb_lt in Hlt. exfalso. eapply Qlt_not_le; eauto.
Qed.

(** ** The selection invariant *)

Lemma init_ok (e : Env) (st : Globals) (e' : Env) :
  init e = Some (st, e') -> selection_ok st.
Proof.
  intros H. apply init_Some in H
    as (c & rej & l & rest & d & ws & _ & Hc & _ & Hl & Hne & _ & _ & -> & _).
  unfold selection_ok. simpl. rewrite length_insert. simpl. auto.
Qed.

Lemma everySecond_ok (st : Globals) (e : Env) (st' : Globals) (e' : Env) :
  selection_ok st -> everySecond st e = Some (st', e') -> selection_ok st'.
Proof.
  intros (Hne & Hc & Hl & Hlen) H. apply everySecond_Some in H
    as (rej & l & rest & _ & _ & Hl' & Hne' & _ & _ & -> & _).
  unfold selection_ok. simpl. rewrite !length_insert. auto.
Qed.

Lemma everySecondRed_ok (st : Globals) (e : Env) (st' : Globals) (e' : Env) :
  selection_ok st -> everySecondRed st e = Some (st', e') -> selection_ok st'.
Proof.
  intros (Hne & Hc & Hl & Hlen) H. apply everySecondRed_Some in H
    as (rej & n & rest & _ & _ & Hn & _ & Hne' & _ & _ & -> & _).
  unfold selection_ok. simpl. rewrite !length_insert. auto.
Qed.

Lemma mouseTask_ok (mouse : option (list nat)) (st : Globals) (e : Env)
    (st' : Globals) (e' : Env) :
  selection_ok st -> mouseTask mouse st e = Some (st', e') -> selection_ok st'.
Proof.
  intros Hok H. apply mouseTask_Some in H as [_ H].
  destruct mouse as [[|i entries]|].
  - destruct H as [_ ->]. exact Hok.
  - destruct H as [_ H]. destruct (chosenNum st =? i); subst st'; exact Hok.
  - subst st'. exact Hok.
Qed.

Section Driver.

Variable str : Q -> string.

Lemma changeColor_ok (st : Globals) (e : Env) (st' : Globals) (e' : Env) :
  selection_ok st -> changeColor str st e = Some (st', e') -> selection_ok st'.
Proof.
  intros Hok H. apply changeColor_Some in H.
  destruct (mouseOver st).
  - destruct H as (t1 & t2 & t3 & t4 & ts & d & ws & _ & _ & _ & -> & _). exact Hok.
  - destruct H as (t1 & t2 & ts & d & ws & _ & _ & _ & -> & _). exact Hok.
Qed.

Lemma dispatch_ok (ev : Event) (st : Globals) (e : Env) (st' : Globals) (e' : Env) :
  selection_ok st -> dispatch str ev st e = Some (st', e') -> selection_ok st'.
Proof.
  destruct ev; simpl;
    eauto using mouseTask_ok, changeColor_ok, everySecond_ok, everySecondRed_ok.
Qed.

Lemma run_cons (ev : Event) (evs : list Event) (st : Globals) (e : Env)
    (r : Globals * Env) :
  run str (ev :: evs) st e = Some r <->
  exists st1 e1, dispatch str ev st e = Some (st1, e1) /\ run str evs st1 e1 = Some r.
Proof. simpl. apply bind_Some. Qed.

Lemma run_app (evs evs' : list Event) :
  forall (st : Globals) (e : Env) (r : Globals * Env),
  run str (evs ++ evs') st e = Some r <->
  exists st1 e1, run str evs st e = Some (st1, e1) /\ run str evs' st1 e1 = Some r.
Proof.
  induction evs as [|ev evs IH]; intros st e r.
  - simpl. split.
    + intros H. exists st, e. split; [apply mret_Some; reflexivity | exact H].
    + intros (st1 & e1 & H1 & H). apply mret_Some in H1 as [= -> ->]. exact H.
  - change ((ev :: evs) ++ evs') with (ev :: (evs ++ evs')).
    rewrite run_cons. split.
    + intros (st1 & e1 & Hd & H). apply IH in H as (st2 & e2 & H2 & H).
      exists st2, e2. split; [|exact H]. apply run_cons. eauto.
    + intros (st2 & e2 & H2 & H). apply run_cons in H2 as (st1 & e1 & Hd & H2).
      exists st1, e1. split; [exact Hd|]. apply IH. eauto.
Qed.

Lemma run_ok (evs : list Event) :
  forall (st : Globals) (e : Env) (st' : Globals) (e' : Env),
  selection_ok st -> run str evs st e = Some (st', e') -> selection_ok st'.
Proof.
  induction evs as [|ev evs IH]; intros st e st' e' Hok H.
  - apply mret_Some in H as [= -> ->]. exact Hok.
  - apply run_cons in H as (st1 & e1 & Hd & H).
    eapply IH; [|exact H]. eapply dispatch_ok; eauto.
Qed.

Lemma session_ok (evs : list Event) (e : Env) (st : Globals) (e' : Env) :
  session str evs e = Some (st, e') -> selection_ok st.
Proof.
  intros H. apply bind_Some in H as (st0 & e0 & Hinit & H).
  eapply run_ok; [|exact H]. eapply init_ok; eauto.
Qed.

Lemma session_app (evs evs' : list Event) (e : Env) (r : Globals * Env) :
  session str (evs ++ evs') e = Some r <->
  exists st1 e1, session str evs e = Some (st1, e1) /\ run str evs' st1 e1 = Some r.
Proof.
  unfold session. rewrite bind_Some. split.
  - intros (st0 & e0 & Hinit & H). apply run_app in H as (st1 & e1 & H1 & H).
    exists st1, e1. split; [|exact H]. apply bind_Some. eauto.
  - intros (st1 & e1 & H1 & H). apply bind_Some in H1 as (st0 & e0 & Hinit & H1).
    exists st0, e0. split; [exact Hinit|]. apply run_app. eauto.
Qed.

(** C1. From the start of the program, after [__init__] and after each
    callback of any sequence of callbacks ([everySecond],
    [everySecondRed], frames and clicks, in any order) and whatever
    [randrange] returns, [chosenNum] differs from [localNum2]: every
    prefix [evs] of a completed run ends in a state where the two
    differ. *)
Theorem chosenNum_differs_from_localNum2
    (evs evs' : list Event) (e : Env) (st : Globals) (e' : Env) :
  session str (evs ++ evs') e = Some (st, e') ->
  exists st1 e1,
    session str evs e = Some (st1, e1) /\ chosenNum st1 <> localNum2 st1.
Proof.
  intros H. apply session_app in H as (st1 & e1 & H1 & _).
  exists st1, e1. split; [exact H1|].
  apply session_ok in H1. apply H1.
Qed.

(** C7. No callback but [everySecondRed] changes [chosenNum], and no
    callback but [everySecond] changes [localNum2]: a frame and a
    click leave both as they are, [everySecond] leaves [chosenNum] and
    [everySecondRed] leaves [localNum2]. *)
Theorem indices_change_only_on_their_tick
    (ev : Event) (st : Globals) (e : Env) (st' : Globals) (e' : Env) :
  dispatch str ev st e = Some (st', e') ->
  (ev <> EvEverySecondRed -> chosenNum st' = chosenNum st)
  /\ (ev <> EvEverySecond -> localNum2 st' = localNum2 st).
Proof.
  destruct ev as [mouse| | |]; simpl; intros H.
  - apply mouseTask_Some in H as [_ H].
    destruct mouse as [[|i entries]|].
    + destruct H as [_ ->]. auto.
    + destruct H as [_ H]. destruct (chosenNum st =? i); subst st'; auto.
    + subst st'. auto.
  - apply changeColor_Some in H. destruct (mouseOver st).
    + destruct H as (t1 & t2 & t3 & t4 & ts & d & ws & _ & _ & _ & -> & _). auto.
    + destruct H as (t1 & t2 & ts & d & ws & _ & _ & _ & -> & _). auto.
  - apply everySecond_Some in H
      as (rej & l & rest & _ & _ & _ & _ & _ & _ & -> & _).
    split; [reflexivity | congruence].
  - apply everySecondRed_Some in H
      as (rej & n & rest & _ & _ & _ & _ & _ & _ & _ & -> & _).
    split; [congruence | reflexivity].
Qed.

(** C4. [mouseOver] goes from true to false only in a click: every
    other callback keeps a true [mouseOver] true. A frame sets it to
    true or leaves it as it is, and a frame without a mouse position or
    without a collision entry changes nothing at all. A click that
    finds it false leaves it false. *)
Theorem mouseOver_cleared_only_by_click
    (ev : Event) (st : Globals) (e : Env) (st' : Globals) (e' : Env) :
  dispatch str ev st e = Some (st', e') ->
  (ev <> EvMouse1 -> mouseOver st = true -> mouseOver st' = true)
  /\ (forall mouse, ev = EvMouseTask mouse ->
        (mouseOver st' = true \/ mouseOver st' = mouseOver st)
        /\ (mouse = None \/ mouse = Some [] -> st' = st))
  /\ (ev = EvMouse1 -> mouseOver st = false -> mouseOver st' = false).
Proof.
  destruct ev as [mouse| | |]; simpl; intros H.
  - apply mouseTask_Some in H as [_ H].
    assert (Hcases : (mouseOver st' = true \/ st' = st)
                     /\ (mouse = None \/ mouse = Some [] -> st' = st)).
    { destruct mouse as [[|i entries]|].
      - destruct H as [_ ->]. auto.
      - destruct H as [_ H]. destruct (chosenNum st =? i); subst st'.
        + split; [left; reflexivity|]. intros [?|?]; discriminate.
        + split; [auto|]. intros [?|?]; discriminate.
      - subst st'. auto. }
    destruct Hcases as [Hcases Hnone].
    split; [|split].
    + intros _ Hover. destruct Hcases as [?| ->]; assumption.
    + intros mouse' [= <-]. split; [|exact Hnone].
      destruct Hcases as [?| ->]; auto.
    + discriminate.
  - split; [congruence|]. split; [discriminate|].
    intros _ Hover. apply changeColor_Some in H. rewrite Hover in H.
    destruct H as (t1 & t2 & ts & d & ws & _ & _ & _ & -> & _). reflexivity.
  - apply everySecond_Some in H
      as (rej & l & rest & _ & _ & _ & _ & _ & _ & -> & _).
    split; [auto|]. split; discriminate.
  - apply everySecondRed_Some in H
      as (rej & n & rest & _ & _ & _ & _ & _ & _ & _ & -> & _).
    split; [auto|]. split; discriminate.
Qed.

End Driver.

(** ** The ticks return *)

(** A list of draws that holds an accepted one splits at the first of them. *)
Lemma first_accepted (n : nat) (reject : nat -> bool) (ds : list nat) :
  Forall (fun d => d < n) ds ->
  (exists d, d ∈ ds /\ reject d = false) ->
  exists rejected y rest,
    ds = rejected ++ y :: rest
    /\ Forall (fun r => r < n /\ reject r = true) rejected
    /\ y < n /\ reject y = false.
Proof.
  induction ds as [|d ds IH]; intros Hlt (y & Hin & Hy).
  - inversion Hin.
  - inversion Hlt as [|? ? Hd Hlt']; subst.
    destruct (reject d) eqn:Hrd.
    + destruct IH as (rej & y' & rest & -> & Hrej & Hy' & Hacc); [assumption| |].
      { exists y. split; [|assumption].
        inversion Hin; subst; [congruence | assumption]. }
      exists (d :: rej), y', rest. repeat split; auto.
    + exists [], d, ds. repeat split; auto.
Qed.

(** With enough draws [everySecond] returns: whatever the draws below 17
    are, as soon as one of them is not [chosenNum]. *)
Lemma everySecond_returns (st : Globals) (e : Env) :
  selection_ok st ->
  Forall (fun d => d < 17) (draws e) ->
  (exists d, d ∈ draws e /\ d <> chosenNum st) ->
  exists st' e', everySecond st e = Some (st', e').
Proof.
  intros (Hne & Hc & Hl & Hlen) Hlt (d & Hin & Hd).
  destruct (first_accepted 17 (fun l => chosenNum st =? l) (draws e))
    as (rej & y & rest & Hds & Hrej & Hy & Hacc); [assumption| |].
  { exists d. split; [assumption|]. apply Nat.eqb_neq. auto. }
  eexists _, _. apply everySecond_Some.
  exists rej, y, rest. rewrite Hlen. repeat split; eauto.
  - eapply Forall_impl; [exact Hrej|]. simpl. intros r [? Hr].
    apply Nat.eqb_eq in Hr. auto.
  - apply Nat.eqb_neq in Hacc. auto.
Qed.

(** And so does [everySecondRed], as soon as one of the draws is neither
    [chosenNum] nor [localNum2]. *)
Lemma everySecondRed_returns (st : Globals) (e : Env) :
  selection_ok st ->
  Forall (fun d => d < 17) (draws e) ->
  (exists d, d ∈ draws e /\ d <> chosenNum st /\ d <> localNum2 st) ->
  exists st' e', everySecondRed st e = Some (st', e').
Proof.
  intros (Hne & Hc & Hl & Hlen) Hlt (d & Hin & Hd1 & Hd2).
  destruct (first_accepted 17
              (fun n => (chosenNum st =? n) || (localNum2 st =? n)) (draws e))
    as (rej & y & rest & Hds & Hrej & Hy & Hacc); [assumption| |].
  { exists d. split; [assumption|].
    apply orb_false_iff. split; apply Nat.eqb_neq; auto. }
  apply orb_false_iff in Hacc as [Ha1 Ha2].
  apply Nat.eqb_neq in Ha1, Ha2.
  eexists _, _. apply everySecondRed_Some.
  exists rej, y, rest. rewrite Hlen. repeat split; eauto.
  eapply Forall_impl; [exact Hrej|]. simpl. intros r [? Hr].
  apply orb_true_iff in Hr. rewrite !Nat.eqb_eq in Hr.
  split; [assumption|]. destruct Hr; auto.
Qed.

(** ** The active tick *)

(** C10. A completed [everySecondRed] leaves a [chosenNum] that differs
    from the one it found, whatever [randrange] returned: the loop
    rejects the old [chosenNum] as well as [localNum2]. *)
Theorem everySecondRed_leaves_old_chosenNum
    (st : Globals) (e : Env) (st' : Globals) (e' : Env) :
  everySecondRed st e = Some (st', e') ->
  chosenNum st' <> chosenNum st /\ chosenNum st' <> localNum2 st.
Proof.
  intros H. apply everySecondRed_Some in H
    as (rej & n & rest & _ & _ & _ & Hne1 & Hne2 & _ & _ & -> & _).
  simpl. auto.
Qed.

(** C3, as the code has it. A completed [everySecondRed] chose the new
    [chosenNum] by rejection from [0, 17): it is the first draw that
    differs both from [localNum2] and from the [chosenNum] the tick found;
    the draws before it are each one of those two; the draws after it are
    left for later calls. No outcome of [randrange] makes the new
    [chosenNum] equal to the old one. *)
Theorem everySecondRed_rejection_sampling
    (st : Globals) (e : Env) (st' : Globals) (e' : Env) :
  everySecondRed st e = Some (st', e') ->
  exists rejected,
    draws e = rejected ++ chosenNum st' :: draws e'
    /\ Forall (fun r => r < 17 /\ (r = chosenNum st \/ r = localNum2 st)) rejected
    /\ chosenNum st' < 17
    /\ chosenNum st' <> localNum2 st
    /\ chosenNum st' <> chosenNum st
    /\ localNum2 st' = localNum2 st.
Proof.
  intros H. apply everySecondRed_Some in H
    as (rej & n & rest & Hds & Hrej & Hn & Hne1 & Hne2 & _ & _ & -> & ->).
  simpl. exists rej. auto 10.
Qed.

(** C3, as the specification words it, fails. From [chosenNum = 3] and
    [localNum2 = 5] with the draws 3 and 7, a loop that rejects
    [localNum2] only keeps the draw 3; [everySecondRed] rejects it and
    takes 7. And no state and no draws make [everySecondRed] end on the
    [chosenNum] it started from. *)
Lemma everySecondRed_is_not_next_only :
  (chosenNum ∘ fst <$> everySecondRed_next_only sample_state (mkEnv [3; 7] [] []))
    = Some 3
  /\ (chosenNum ∘ fst <$> everySecondRed sample_state (mkEnv [3; 7] [] []))
    = Some 7
  /\ ~ exists st e st' e',
         everySecondRed st e = Some (st', e') /\ chosenNum st' = chosenNum st.
Proof.
  split; [reflexivity|]. split; [reflexivity|].
  intros (st & e & st' & e' & H & Heq).
  apply everySecondRed_Some in H
    as (rej & n & rest & _ & _ & _ & Hne1 & _ & _ & _ & -> & _).
  simpl in Heq. contradiction.
Qed.

Example init_sample :
  init sample_env
  = Some (sample_state,
          mkEnv (drop 3 (draws sample_env)) (perf sample_env) (drop 1 (wall sample_env))).
Proof. reflexivity. Qed.

(** ** Clicks *)

Section Clicks.

Variable str : Q -> string.

(** What a callback other than a click leaves alone. *)
Lemma dispatch_no_click (ev : Event) (st : Globals) (e : Env)
    (st' : Globals) (e' : Env) :
  is_click ev = false ->
  dispatch str ev st e = Some (st', e') ->
  outputDataContents st' = outputDataContents st
  /\ timerOverall st' = timerOverall st /\ timerRed st' = timerRed st
  /\ timerOverallNew st' = timerOverallNew st /\ timerRedNew st' = timerRedNew st
  /\ perf e' = perf e /\ wall e' = wall e.
Proof.
  destruct ev as [mouse| | |]; simpl; intros Hev H; try discriminate.
  - apply mouseTask_Some in H as [-> H].
    destruct mouse as [[|i entries]|].
    + destruct H as [_ ->]. auto 10.
    + destruct H as [_ H]. destruct (chosenNum st =? i); subst st'; auto 10.
    + subst st'. auto 10.
  - apply everySecond_Some in H
      as (rej & l & rest & _ & _ & _ & _ & _ & _ & -> & ->). simpl. auto 10.
  - apply everySecondRed_Some in H
      as (rej & n & rest & _ & _ & _ & _ & _ & _ & _ & -> & ->). simpl. auto 10.
Qed.

Lemma run_no_click (evs : list Event) :
  forall (st : Globals) (e : Env) (st' : Globals) (e' : Env),
  existsb is_click evs = false ->
  run str evs st e = Some (st', e') ->
  outputDataContents st' = outputDataContents st
  /\ timerOverallNew st' = timerOverallNew st /\ timerRedNew st' = timerRedNew st
  /\ perf e' = perf e /\ wall e' = wall e.
Proof.
  induction evs as [|ev evs IH]; intros st e st' e' Hevs H.
  - apply mret_Some in H as [= -> ->]. auto.
  - simpl in Hevs. apply orb_false_iff in Hevs as [Hev Hevs].
    apply run_cons in H as (st1 & e1 & Hd & H).
    apply (dispatch_no_click _ _ _ _ _ Hev) in Hd
      as (Hlog & _ & _ & HO & HR & Hp & Hw).
    apply IH in H as (Hlog' & HO' & HR' & Hp' & Hw'); [|assumption].
    repeat split; congruence.
Qed.

(** A quiet callback leaves [mouseOver] as it is. *)
Lemma dispatch_quiet (ev : Event) (st : Globals) (e : Env)
    (st' : Globals) (e' : Env) :
  quiet ev = true ->
  dispatch str ev st e = Some (st', e') ->
  mouseOver st' = mouseOver st.
Proof.
  intros Hev H.
  destruct ev as [[[|i entries]|]| | |]; try discriminate; cbn [dispatch] in H.
  - apply mouseTask_Some in H as [_ [_ ->]]. reflexivity.
  - apply mouseTask_Some in H as [_ ->]. reflexivity.
  - apply everySecond_Some in H
      as (rej & l & rest & _ & _ & _ & _ & _ & _ & -> & _). reflexivity.
  - apply everySecondRed_Some in H
      as (rej & n & rest & _ & _ & _ & _ & _ & _ & _ & -> & _). reflexivity.
Qed.

Lemma run_quiet (evs : list Event) :
  forall (st : Globals) (e : Env) (st' : Globals) (e' : Env),
  forallb quiet evs = true ->
  run str evs st e = Some (st', e') ->
  mouseOver st' = mouseOver st.
Proof.
  induction evs as [|ev evs IH]; intros st e st' e' Hevs H.
  - apply mret_Some in H as [= -> ->]. reflexivity.
  - simpl in Hevs. apply andb_true_iff in Hevs as [Hev Hevs].
    apply run_cons in H as (st1 & e1 & Hd & H).
    apply (dispatch_quiet _ _ _ _ _ Hev) in Hd.
    apply IH in H; [congruence | assumption].
Qed.

(** A callback that is not a click keeps a true [mouseOver] true. *)
Lemma dispatch_keeps_mouseOver (ev : Event) (st : Globals) (e : Env)
    (st' : Globals) (e' : Env) :
  is_click ev = false ->
  dispatch str ev st e = Some (st', e') ->
  mouseOver st = true -> mouseOver st' = true.
Proof.
  intros Hev H Hover.
  destruct ev as [mouse| | |]; try discriminate; cbn [dispatch] in H.
  - apply mouseTask_Some in H as [_ H].
    destruct mouse as [[|i entries]|].
    + destruct H as [_ ->]. assumption.
    + destruct H as [_ H]. destruct (chosenNum st =? i); subst st'; auto.
    + subst st'. assumption.
  - apply everySecond_Some in H
      as (rej & l & rest & _ & _ & _ & _ & _ & _ & -> & _). assumption.
  - apply everySecondRed_Some in H
      as (rej & n & rest & _ & _ & _ & _ & _ & _ & _ & -> & _). assumption.
Qed.

Lemma run_keeps_mouseOver (evs : list Event) :
  forall (st : Globals) (e : Env) (st' : Globals) (e' : Env),
  existsb is_click evs = false ->
  run str evs st e = Some (st', e') ->
  mouseOver st = true -> mouseOver st' = true.
Proof.
  induction evs as [|ev evs IH]; intros st e st' e' Hevs H Hover.
  - apply mret_Some in H as [= -> ->]. assumption.
  - simpl in Hevs. apply orb_false_iff in Hevs as [Hev Hevs].
    apply run_cons in H as (st1 & e1 & Hd & H).
    eapply IH; [exact Hevs | exact H |].
    eapply dispatch_keeps_mouseOver; eauto.
Qed.

(** C2, as the code has it. A click that finds [mouseOver] true appends
    one record to the log, [HH:MM:SS,leftClkInsideRed,<elapsed>,<elapsed
    since the last click on red>] and a line feed, with both elapsed
    times; it sets each of the two cursors to the reading of the clock
    taken right after the one its elapsed time was computed from; and it
    leaves [mouseOver] false. What the next click records depends on the
    frames in between. When only ticks and frames without a collision
    entry come in between, it appends a [leftClkOutsideRed] record. When
    the mouse is still over the chosen target, the next frame finds it
    and sets [mouseOver] again, and the next click, whatever ticks and
    frames follow that frame, appends a [leftClkInsideRed] record once
    more. *)
Theorem click_on_red
    (st : Globals) (e : Env) (st' : Globals) (e' : Env) :
  mouseOver st = true ->
  changeColor str st e = Some (st', e') ->
  (exists t1 t2 t3 t4 ts d ws,
     perf e = t1 :: t2 :: t3 :: t4 :: ts /\ wall e = d :: ws
     /\ outputDataContents st'
        = outputDataContents st +:+ strftime_HMS d +:+ ",leftClkInsideRed,"
            +:+ str (clamped (t1 - timerOverallNew st)) +:+ ","
            +:+ str (clamped (t3 - timerRedNew st)) +:+ LF
     /\ timerOverall st' = Some (clamped (t1 - timerOverallNew st))
     /\ timerRed st' = Some (clamped (t3 - timerRedNew st))
     /\ timerOverallNew st' = t2
     /\ timerRedNew st' = t4)
  /\ mouseOver st' = false
  /\ (forall (evs : list Event) (e1 : Env) (st1 : Globals) (e2 : Env)
             (st2 : Globals) (e3 : Env),
        forallb quiet evs = true ->
        run str evs st' e1 = Some (st1, e2) ->
        changeColor str st1 e2 = Some (st2, e3) ->
        exists t1 t2 ts d ws,
          perf e2 = t1 :: t2 :: ts /\ wall e2 = d :: ws
          /\ outputDataContents st2
             = outputDataContents st1 +:+ strftime_HMS d +:+ ",leftClkOutsideRed,"
                 +:+ str (clamped (t1 - timerOverallNew st1)) +:+ "," +:+ LF)
  /\ (forall (entries : list nat) (evs : list Event) (e1 : Env)
             (st1 : Globals) (e2 : Env) (st2 : Globals) (e3 : Env)
             (st3 : Globals) (e4 : Env),
        mouseTask (Some (chosenNum st' :: entries)) st' e1 = Some (st1, e2) ->
        existsb is_click evs = false ->
        run str evs st1 e2 = Some (st2, e3) ->
        changeColor str st2 e3 = Some (st3, e4) ->
        mouseOver st1 = true
        /\ exists t1 t2 t3 t4 ts d ws,
             perf e3 = t1 :: t2 :: t3 :: t4 :: ts /\ wall e3 = d :: ws
             /\ outputDataContents st3
                = outputDataContents st2 +:+ strftime_HMS d +:+ ",leftClkInsideRed,"
                    +:+ str (clamped (t1 - timerOverallNew st2)) +:+ ","
                    +:+ str (clamped (t3 - timerRedNew st2)) +:+ LF).
Proof.
  intros Hover H. apply changeColor_Some in H. rewrite Hover in H.
  destruct H as (t1 & t2 & t3 & t4 & ts & d & ws & Hp & Hw & _ & -> & ->).
  split; [|split; [|split]].
  - exists t1, t2, t3, t4, ts, d, ws. simpl. auto 10.
  - reflexivity.
  - intros evs e1 st1 e2 st2 e3 Hq Hrun H.
    apply run_quiet in Hrun; [|assumption]. simpl in Hrun.
    apply changeColor_Some in H. rewrite Hrun in H.
    destruct H as (u1 & u2 & us & d' & ws' & Hp' & Hw' & _ & -> & _).
    exists u1, u2, us, d', ws'. simpl. auto.
  - intros entries evs e1 st1 e2 st2 e3 st3 e4 Hframe Hevs Hrun H.
    apply mouseTask_Some in Hframe as [_ [_ Hframe]].
    rewrite Nat.eqb_refl in Hframe.
    assert (Hover1 : mouseOver st1 = true) by (subst st1; reflexivity).
    split; [exact Hover1|].
    pose proof (run_keeps_mouseOver _ _ _ _ _ Hevs Hrun Hover1) as Hover2.
    apply changeColor_Some in H. rewrite Hover2 in H.
    destruct H as (u1 & u2 & u3 & u4 & us & d' & ws' & Hp' & Hw' & _ & -> & _).
    exists u1, u2, u3, u4, us, d', ws'. simpl. auto.
Qed.

(** C6. The elapsed times a click records, in the globals and in the
    log, are never negative, and they are 0 whenever the clock reading
    minus the cursor is negative: the time since the last click for
    every click, the time since the last click on red for a click that
    finds [mouseOver] true. *)
Theorem recorded_elapsed_times_not_negative
    (st : Globals) (e : Env) (st' : Globals) (e' : Env) :
  changeColor str st e = Some (st', e') ->
  exists now1 d1 stamp,
    perf e !! 0 = Some now1
    /\ timerOverall st' = Some d1
    /\ (0 <= d1)%Q
    /\ ((now1 - timerOverallNew st < 0)%Q -> d1 = 0%Q)
    /\ if mouseOver st then
         exists now3 d2,
           perf e !! 2 = Some now3
           /\ timerRed st' = Some d2
           /\ (0 <= d2)%Q
           /\ ((now3 - timerRedNew st < 0)%Q -> d2 = 0%Q)
           /\ outputDataContents st'
              = outputDataContents st +:+ stamp +:+ ",leftClkInsideRed,"
                  +:+ str d1 +:+ "," +:+ str d2 +:+ LF
       else
         outputDataContents st'
         = outputDataContents st +:+ stamp +:+ ",leftClkOutsideRed,"
             +:+ str d1 +:+ "," +:+ LF.
Proof.
  intros H. apply changeColor_Some in H. destruct (mouseOver st).
  - destruct H as (t1 & t2 & t3 & t4 & ts & d & ws & Hp & Hw & _ & -> & ->).
    exists t1, (clamped (t1 - timerOverallNew st)), (strftime_HMS d).
    rewrite Hp. simpl.
    repeat split; auto using clamped_nonneg, clamped_neg.
    exists t3, (clamped (t3 - timerRedNew st)).
    repeat split; auto using clamped_nonneg, clamped_neg.
  - destruct H as (t1 & t2 & ts & d & ws & Hp & Hw & _ & -> & ->).
    exists t1, (clamped (t1 - timerOverallNew st)), (strftime_HMS d).
    rewrite Hp. simpl.
    repeat split; auto using clamped_nonneg, clamped_neg.
Qed.

End Clicks.

(** C2, as the specification words it, fails. The mouse is over the
    chosen target 3 and does not move. The first click is recorded as
    [leftClkInsideRed] and clears [mouseOver]; the frame that follows
    finds target 3 under the mouse again; the second click is recorded as
    [leftClkInsideRed] too, not as [leftClkOutsideRed]. *)
Lemma second_click_without_moving_is_inside :
  exists st1 e1 st2 e2 st3 e3,
    changeColor sample_str sample_state_over hover_env = Some (st1, e1)
    /\ mouseOver st1 = false
    /\ mouseTask (Some [3]) st1 e1 = Some (st2, e2)
    /\ changeColor sample_str st2 e2 = Some (st3, e3)
    /\ outputDataContents st3
       = outputDataContents st1 +:+ "09:06:03,leftClkInsideRed,3/2,3/2" +:+ LF
    /\ ~ exists rest,
          outputDataContents st3
          = outputDataContents st1 +:+ "09:06:03,leftClkOutsideRed," +:+ rest.
Proof.
  eexists _, _, _, _, _, _.
  split; [vm_compute; reflexivity|]. split; [reflexivity|].
  split; [vm_compute; reflexivity|]. split; [vm_compute; reflexivity|].
  split; [vm_compute; reflexivity|].
  intros [rest H]. vm_compute in H. discriminate H.
Qed.

(** ** The first click *)

(** Up to the sentinel the first elapsed time is clamped. *)
Lemma first_elapsed_zero_before_sentinel (t : Q) :
  (t <= 99999)%Q -> (clamped (t - timerOverallNew_0) == 0)%Q.
Proof.
  intros Ht. unfold clamped, timerOverallNew_0.
  destruct (Qltb (t - 99999) 0) eqn:Hlt; [reflexivity|].
  assert (Hge : (0 <= t - 99999)%Q).
  { apply Qnot_lt_le. intros H. apply Qltb_lt in H. congruence. }
  apply Qle_antisym; [|assumption]. lra.
Qed.

(** C5. Both cursors start at 99999, and a clock reading below it makes
    the first elapsed times 0. A reading above it does not: with the
    performance counter at 100000 at the first click, a click on red, both
    elapsed times are recorded as 1. *)
Theorem first_click_past_sentinel_not_clamped (str : Q -> string) :
  (exists st0 e0, init late_env = Some (st0, e0)
     /\ timerOverallNew st0 = 99999%Q /\ timerRedNew st0 = 99999%Q)
  /\ exists st e',
       session str [EvMouseTask (Some [3]); EvMouse1] late_env = Some (st, e')
       /\ timerOverall st = Some 1%Q
       /\ timerRed st = Some 1%Q
       /\ outputDataContents st
          = outputDataContents_0 +:+ "09:05:59,firstRedAppears,," +:+ LF
              +:+ "09:06:01,leftClkInsideRed," +:+ str 1%Q +:+ "," +:+ str 1%Q +:+ LF.
Proof.
  split.
  - eexists _, _. split; [reflexivity|]. split; reflexivity.
  - eexists _, _. split; [reflexivity|]. repeat split.
Qed.

(** ** Strings *)

#[local] Arguments String.append !_ _ / : simpl nomatch.

Lemma string_app_assoc (a b c : string) : (a +:+ b) +:+ c = a +:+ (b +:+ c).
Proof. induction a as [|x a IH]; simpl; [reflexivity | rewrite IH; reflexivity]. Qed.

Lemma string_app_nil_r (a : string) : a +:+ "" = a.
Proof. induction a as [|x a IH]; simpl; [reflexivity | rewrite IH; reflexivity]. Qed.

Lemma string_length_app (a b : string) :
  String.length (a +:+ b) = String.length a + String.length b.
Proof. induction a as [|x a IH]; simpl; [reflexivity | rewrite IH; reflexivity]. Qed.

Lemma string_forall_app (p : ascii -> bool) (a b : string) :
  string_forall p (a +:+ b) = string_forall p a && string_forall p b.
Proof.
  induction a as [|x a IH]; simpl; [reflexivity|].
  rewrite IH. apply andb_assoc.
Qed.

Lemma free_of_app (c : ascii) (a b : string) :
  free_of c (a +:+ b) = free_of c a && free_of c b.
Proof.
  induction a as [|x a IH]; simpl; [reflexivity|].
  rewrite IH. apply andb_assoc.
Qed.

Lemma string_forall_get (p : ascii -> bool) (s : string) :
  string_forall p s = true ->
  forall (i : nat) (c : ascii), String.get i s = Some c -> p c = true.
Proof.
  induction s as [|x s IH]; simpl; intros Hp i c Hget; [discriminate|].
  apply andb_true_iff in Hp as [Hx Hs].
  destruct i as [|i]; [injection Hget as <-; assumption | eauto].
Qed.

Lemma string_get_lt (s : string) :
  forall i : nat, i < String.length s -> exists c, String.get i s = Some c.
Proof.
  induction s as [|x s IH]; simpl; intros i Hi; [lia|].
  destruct i as [|i]; [eauto | apply IH; lia].
Qed.

Lemma string_get_occurs (s : string) :
  forall (i : nat) (c : ascii), String.get i s = Some c -> free_of c s = false.
Proof.
  induction s as [|x s IH]; intros i c Hget; simpl in Hget; [discriminate|].
  cbn [free_of]. destruct i as [|i].
  - injection Hget as ->. rewrite Ascii.eqb_refl. reflexivity.
  - rewrite (IH _ _ Hget). apply andb_false_r.
Qed.

(** Splitting at a separator that the first piece does not hold. *)
Lemma split_at_free (sep : ascii) (a : string) :
  free_of sep a = true -> split_at sep a = [a].
Proof.
  induction a as [|x a IH]; simpl; [reflexivity|].
  intros H. apply andb_true_iff in H as [Hx Ha].
  apply negb_true_iff in Hx. rewrite Hx, (IH Ha). reflexivity.
Qed.

Lemma split_at_app (sep : ascii) (a b : string) :
  free_of sep a = true ->
  split_at sep (a +:+ String sep b) = a :: split_at sep b.
Proof.
  induction a as [|x a IH]; simpl.
  - intros _. rewrite Ascii.eqb_refl. reflexivity.
  - intros H. apply andb_true_iff in H as [Hx Ha].
    apply negb_true_iff in Hx. rewrite Hx, (IH Ha). reflexivity.
Qed.

(** The stamp holds digits and colons only. *)
Lemma digit_neq (k : nat) (c : ascii) :
  k < 10 -> nat_of_ascii c < 48 -> Ascii.eqb (digit k) c = false.
Proof.
  intros Hk Hc. apply Ascii.eqb_neq. intros <-.
  unfold digit in Hc. rewrite nat_ascii_embedding in Hc; lia.
Qed.

Lemma two_digits_free (n : nat) (c : ascii) :
  n < 100 -> nat_of_ascii c < 48 -> free_of c (two_digits n) = true.
Proof.
  intros Hn Hc. unfold two_digits. cbn [free_of].
  rewrite !digit_neq; [reflexivity | | | |]; try assumption.
  - apply Nat.mod_upper_bound. lia.
  - apply Nat.Div0.div_lt_upper_bound. lia.
Qed.

Lemma strftime_HMS_free (d : datetime) (c : ascii) :
  valid_datetime d = true -> nat_of_ascii c < 48 ->
  free_of c (strftime_HMS d) = true.
Proof.
  unfold valid_datetime. rewrite !andb_true_iff, !Nat.ltb_lt.
  intros [[Hh Hm] Hs] Hc. unfold strftime_HMS.
  assert (Hcolon : free_of c ":" = true).
  { cbn [free_of]. rewrite andb_true_r. apply negb_true_iff, Ascii.eqb_neq.
    intros <-. vm_compute in Hc. lia. }
  rewrite !free_of_app, Hcolon, !two_digits_free by (assumption || lia).
  reflexivity.
Qed.

(** ** The identifier *)

Lemma characters_alphanumeric : string_forall alphanumeric characters = true.
Proof. reflexivity. Qed.

Lemma makeid_loop_Some (n : nat) :
  forall (res : string) (e : Env) (s : string) (e' : Env),
  makeid_loop n res e = Some (s, e') ->
  exists id ds,
    s = res +:+ id
    /\ String.length id = n
    /\ string_forall alphanumeric id = true
    /\ string_forall (fun c => negb (free_of c characters)) id = true
    /\ draws e = ds ++ draws e' /\ length ds = n.
Proof.
  induction n as [|n IH]; intros res e s e' H; cbn [makeid_loop] in H.
  - apply mret_Some in H as [= -> ->].
    exists "", []. rewrite string_app_nil_r. auto 10.
  - apply bind_Some in H as (d & e1 & Hd & H).
    apply bind_Some in H as (c & e2 & Hc & H).
    apply lift_Some in Hc as (c0 & Hc & [= -> ->]).
    apply randrange_Some in Hd as (ds & Hds & Hlt & ->).
    apply IH in H as (id & ds' & -> & Hlen & Halnum & Hin & Hds' & Hlen').
    simpl in Hds'. subst ds.
    exists (String c0 id), (d :: ds'). rewrite string_app_assoc.
    cbn [String.length string_forall length app String.append].
    repeat split; auto.
    + rewrite Halnum, andb_true_r.
      exact (string_forall_get _ _ characters_alphanumeric _ _ Hc).
    + rewrite Hin, andb_true_r. apply negb_true_iff.
      exact (string_get_occurs _ _ _ Hc).
Qed.

(** [makeid] returns when the draws it needs are there and lie below the
    length of the alphabet. *)
Lemma makeid_loop_returns (n : nat) :
  forall (res : string) (e : Env),
  n <= length (draws e) ->
  Forall (fun d => d < charactersLength) (take n (draws e)) ->
  exists s e', makeid_loop n res e = Some (s, e').
Proof.
  induction n as [|n IH]; intros res e Hlen Hlt; cbn [makeid_loop].
  - eexists _, _. apply mret_Some. reflexivity.
  - destruct e as [[|d ds] ts ws]; simpl in *; [lia|].
    inversion Hlt as [|? ? Hd Hlt']; subst.
    destruct (string_get_lt characters d Hd) as [c Hc].
    destruct (IH (res +:+ String c "") (mkEnv ds ts ws)) as (s & e' & H);
      [simpl; lia | assumption |].
    exists s, e'.
    apply bind_Some. eexists d, _. split; [apply randrange_Some; simpl; eauto|].
    apply bind_Some. eexists c, _. split; [apply lift_Some; eauto|].
    exact H.
Qed.

(** C9. The file [saveDataExit] writes is named [dataFile_<id>.txt],
    where [<id>], the result of [makeid(16)], has 16 characters, each of
    them one of the 62 of [characters], which are those of [A-Za-z0-9]. *)
Theorem saveDataExit_file_name
    (st : Globals) (e : Env) (f : File) (e' : Env) :
  saveDataExit st e = Some (f, e') ->
  exists id,
    makeid 16 e = Some (id, e')
    /\ fileName f = "dataFile_" +:+ id +:+ ".txt"
    /\ String.length id = 16
    /\ string_forall alphanumeric id = true
    /\ string_forall (fun c => negb (free_of c characters)) id = true
    /\ charactersLength = 62.
Proof.
  intros H. unfold saveDataExit in H.
  apply bind_Some in H as (id & e1 & Hid & H).
  apply mret_Some in H as [= -> ->].
  exists id. split; [exact Hid|].
  apply makeid_loop_Some in Hid as (id' & ds & Heq & Hlen & Halnum & Hin & _).
  simpl in Heq. subst id'. auto 10.
Qed.

(** ** The written file *)

Lemma saveDataExit_contents (st : Globals) (e : Env) (f : File) (e' : Env) :
  saveDataExit st e = Some (f, e') -> fileContents f = outputDataContents st.
Proof.
  intros H. unfold saveDataExit in H.
  apply bind_Some in H as (id & e1 & _ & H).
  apply mret_Some in H as [= -> ->]. reflexivity.
Qed.

(** The two lines of the log as [__init__] leaves it. *)
Lemma lines_initial_log (d : datetime) :
  valid_datetime d = true ->
  lines (outputDataContents_0 +:+ strftime_HMS d +:+ ",firstRedAppears,," +:+ LF)
  = ["timeStamp,event,timeSinceLastClick,timeSinceLastRedClick";
     strftime_HMS d +:+ ",firstRedAppears,,"].
Proof.
  intros Hd. unfold lines.
  change (outputDataContents_0 +:+ strftime_HMS d +:+ ",firstRedAppears,," +:+ LF)
    with ("timeStamp,event,timeSinceLastClick,timeSinceLastRedClick"
            +:+ String (ascii_of_nat 10)
                  (strftime_HMS d +:+ ",firstRedAppears,," +:+ LF)).
  rewrite split_at_app by reflexivity.
  rewrite <- string_app_assoc. unfold LF.
  rewrite split_at_app.
  - reflexivity.
  - rewrite free_of_app, strftime_HMS_free; [reflexivity | assumption |].
    vm_compute. lia.
Qed.

Lemma fields_first_line (d : datetime) :
  valid_datetime d = true ->
  fields (strftime_HMS d +:+ ",firstRedAppears,,")
  = [strftime_HMS d; "firstRedAppears"; ""; ""].
Proof.
  intros Hd. unfold fields.
  change (strftime_HMS d +:+ ",firstRedAppears,,")
    with (strftime_HMS d +:+ String "," "firstRedAppears,,").
  rewrite split_at_app; [reflexivity|].
  apply strftime_HMS_free; [assumption|]. vm_compute. lia.
Qed.

(** C8. When ["escape"] comes before any click, whatever ticks and
    frames came before it, the file written holds two lines: the header
    [timeStamp,event,timeSinceLastClick,timeSinceLastRedClick] and the
    one [firstRedAppears] line of [__init__], whose fields are the time
    of the start, the event, and two empty elapsed times. *)
Theorem file_written_before_any_click
    (str : Q -> string) (evs : list Event) (e : Env) (f : File) (e' : Env) :
  existsb is_click evs = false ->
  session_to_exit str evs e = Some (f, e') ->
  exists d,
    wall e !! 0 = Some d
    /\ lines (fileContents f)
       = ["timeStamp,event,timeSinceLastClick,timeSinceLastRedClick";
          strftime_HMS d +:+ ",firstRedAppears,,"]
    /\ fields (strftime_HMS d +:+ ",firstRedAppears,,")
       = [strftime_HMS d; "firstRedAppears"; ""; ""].
Proof.
  intros Hevs H. unfold session_to_exit in H.
  apply bind_Some in H as (st & e1 & Hs & H).
  apply saveDataExit_contents in H. rewrite H.
  apply bind_Some in Hs as (st0 & e0 & Hinit & Hrun).
  apply (run_no_click str _ _ _ _ _ Hevs) in Hrun as (Hlog & _).
  apply init_Some in Hinit
    as (c & rej & l & rest & d & ws & _ & _ & _ & _ & _ & Hw & Hv & -> & _).
  simpl in Hlog. rewrite Hlog, Hw.
  exists d. split; [reflexivity|].
  split; [apply lines_initial_log | apply fields_first_line]; assumption.
Qed.

(** * The theorems at work on the sample run *)

Lemma chosenNum_differs_from_localNum2_witness :
  exists st1 e1,
    session sample_str [EvEverySecondRed; EvMouseTask (Some [7]); EvMouse1] sample_env
    = Some (st1, e1)
    /\ chosenNum st1 <> localNum2 st1.
Proof.
  eapply (chosenNum_differs_from_localNum2 sample_str
            [EvEverySecondRed; EvMouseTask (Some [7]); EvMouse1]
            [EvMouse1; EvEverySecond] sample_env).
  vm_compute; reflexivity.
Defined.

Lemma indices_change_only_on_their_tick_witness :
  exists st' e',
    dispatch sample_str EvEverySecondRed sample_state tick_env = Some (st', e')
    /\ (EvEverySecondRed <> EvEverySecondRed -> chosenNum st' = chosenNum sample_state)
    /\ (EvEverySecondRed <> EvEverySecond -> localNum2 st' = localNum2 sample_state).
Proof.
  eexists _, _. split; [vm_compute; reflexivity|].
  eapply (indices_change_only_on_their_tick sample_str EvEverySecondRed
            sample_state tick_env).
  vm_compute; reflexivity.
Defined.

Lemma mouseOver_cleared_only_by_click_witness :
  exists st' e',
    dispatch sample_str (EvMouseTask None) sample_state_over tick_env = Some (st', e')
    /\ (EvMouseTask None <> EvMouse1 ->
        mouseOver sample_state_over = true -> mouseOver st' = true).
Proof.
  eexists _, _. split; [vm_compute; reflexivity|].
  eapply (mouseOver_cleared_only_by_click sample_str (EvMouseTask None)
            sample_state_over tick_env).
  vm_compute; reflexivity.
Defined.

Lemma everySecondRed_leaves_old_chosenNum_witness :
  exists st' e',
    everySecondRed sample_state tick_env = Some (st', e')
    /\ chosenNum st' <> chosenNum sample_state
    /\ chosenNum st' <> localNum2 sample_state.
Proof.
  eexists _, _. split; [vm_compute; reflexivity|].
  eapply (everySecondRed_leaves_old_chosenNum sample_state tick_env).
  vm_compute; reflexivity.
Defined.

Lemma everySecondRed_rejection_sampling_witness :
  exists st' e',
    everySecondRed sample_state tick_env = Some (st', e')
    /\ exists rejected,
         draws tick_env = rejected ++ chosenNum st' :: draws e'
         /\ Forall (fun r => r < 17 /\ (r = chosenNum sample_state
                                        \/ r = localNum2 sample_state)) rejected
         /\ chosenNum st' < 17
         /\ chosenNum st' <> localNum2 sample_state
         /\ chosenNum st' <> chosenNum sample_state
         /\ localNum2 st' = localNum2 sample_state.
Proof.
  eexists _, _. split; [vm_compute; reflexivity|].
  eapply (everySecondRed_rejection_sampling sample_state tick_env).
  vm_compute; reflexivity.
Defined.

Lemma click_on_red_witness :
  exists st' e',
    mouseOver sample_state_over = true
    /\ changeColor sample_str sample_state_over click_env = Some (st', e')
    /\ mouseOver st' = false.
Proof.
  eexists _, _. split; [reflexivity|]. split; [vm_compute; reflexivity|].
  eapply (click_on_red sample_str sample_state_over click_env);
    [reflexivity | vm_compute; reflexivity].
Defined.

Lemma recorded_elapsed_times_not_negative_witness :
  exists st' e',
    changeColor sample_str sample_state_over click_env = Some (st', e')
    /\ exists d1, timerOverall st' = Some d1 /\ (0 <= d1)%Q.
Proof.
  eexists _, _. split; [vm_compute; reflexivity|].
  edestruct (recorded_elapsed_times_not_negative sample_str sample_state_over
               click_env) as (now1 & d1 & stamp & _ & Hd1 & Hle & _);
    [vm_compute; reflexivity|].
  exists d1. split; [exact Hd1 | exact Hle].
Defined.

Lemma saveDataExit_file_name_witness :
  exists f e',
    saveDataExit sample_state (mkEnv (drop 8 (draws sample_env)) [] []) = Some (f, e')
    /\ exists id, fileName f = "dataFile_" +:+ id +:+ ".txt" /\ String.length id = 16.
Proof.
  eexists _, _. split; [vm_compute; reflexivity|].
  edestruct (saveDataExit_file_name sample_state
               (mkEnv (drop 8 (draws sample_env)) [] []))
    as (id & _ & Hname & Hlen & _); [vm_compute; reflexivity|].
  exists id. split; [exact Hname | exact Hlen].
Defined.

Lemma file_written_before_any_click_witness :
  exists f e',
    session_to_exit sample_str [EvEverySecondRed; EvMouseTask (Some [7]); EvEverySecond]
      sample_env = Some (f, e')
    /\ exists d,
         wall sample_env !! 0 = Some d
         /\ lines (fileContents f)
            = ["timeStamp,event,timeSinceLastClick,timeSinceLastRedClick";
               strftime_HMS d +:+ ",firstRedAppears,,"]
         /\ fields (strftime_HMS d +:+ ",firstRedAppears,,")
            = [strftime_HMS d; "firstRedAppears"; ""; ""].
Proof.
  eexists _, _. split; [vm_compute; reflexivity|].
  eapply (file_written_before_any_click sample_str
            [EvEverySecondRed; EvMouseTask (Some [7]); EvEverySecond] sample_env);
    [reflexivity | vm_compute; reflexivity].
Defined.

(** * Further properties of the code *)

(** ** What the targets show *)

Lemma init_colours (e : Env) (st : Globals) (e' : Env) :
  init e = Some (st, e') -> colours_ok st.
Proof.
  intros H. apply init_Some in H
    as (c & rej & l & rest & d & ws & _ & Hc & _ & Hl & Hne & _ & _ & -> & _).
  unfold colours_ok. cbn [asteroids chosenNum localNum2]. split; [|split].
  - apply list_lookup_insert_eq. rewrite length_replicate. assumption.
  - intros i Hi Hic _. rewrite list_lookup_insert_ne by auto.
    apply lookup_replicate. auto.
  - left. rewrite list_lookup_insert_ne by auto.
    apply lookup_replicate. auto.
Qed.

Lemma everySecond_colours (st : Globals) (e : Env) (st' : Globals) (e' : Env) :
  selection_ok st -> colours_ok st ->
  everySecond st e = Some (st', e') ->
  colours_ok st' /\ asteroids st' !! localNum2 st' = Some Yellow.
Proof.
  intros (Hne & Hc & Hl & Hlen) (Hred & Hblue & Hnext) H.
  apply everySecond_Some in H
    as (rej & l & rest & _ & _ & Hl' & Hne' & _ & _ & -> & _).
  assert (Hyellow : <[l:=Yellow]> (<[localNum2 st:=Blue]> (asteroids st)) !! l
                    = Some Yellow).
  { apply list_lookup_insert_eq. rewrite length_insert. lia. }
  unfold colours_ok. simpl. repeat split; auto.
  - rewrite !list_lookup_insert_ne by auto. assumption.
  - intros i Hi Hic Hil. rewrite list_lookup_insert_ne by auto.
    destruct (decide (i = localNum2 st)) as [->|Hio].
    + apply list_lookup_insert_eq. lia.
    + rewrite list_lookup_insert_ne by auto. auto.
Qed.

Lemma everySecondRed_colours (st : Globals) (e : Env) (st' : Globals) (e' : Env) :
  selection_ok st -> colours_ok st ->
  everySecondRed st e = Some (st', e') ->
  colours_ok st' /\ asteroids st' !! localNum2 st' = asteroids st !! localNum2 st.
Proof.
  intros (Hne & Hc & Hl & Hlen) (Hred & Hblue & Hnext) H.
  apply everySecondRed_Some in H
    as (rej & n & rest & _ & _ & Hn & Hne1 & Hne2 & _ & _ & -> & _).
  assert (Hkeep : <[n:=Red]> (<[chosenNum st:=Blue]> (asteroids st)) !! localNum2 st
                  = asteroids st !! localNum2 st).
  { rewrite !list_lookup_insert_ne by auto. reflexivity. }
  unfold colours_ok. simpl. repeat split; auto.
  - apply list_lookup_insert_eq. rewrite length_insert. lia.
  - intros i Hi Hin Hil. rewrite list_lookup_insert_ne by auto.
    destruct (decide (i = chosenNum st)) as [->|Hic].
    + apply list_lookup_insert_eq. lia.
    + rewrite list_lookup_insert_ne by auto. auto.
  - rewrite Hkeep. assumption.
Qed.

Section Colours.

Variable str : Q -> string.

(** A frame and a click leave the targets and the selection alone. *)
Lemma dispatch_same_targets (ev : Event) (st : Globals) (e : Env)
    (st' : Globals) (e' : Env) :
  ev <> EvEverySecond -> ev <> EvEverySecondRed ->
  dispatch str ev st e = Some (st', e') ->
  asteroids st' = asteroids st
  /\ chosenNum st' = chosenNum st /\ localNum2 st' = localNum2 st.
Proof.
  intros H1 H2 H. destruct ev as [mouse| | |]; try contradiction;
    cbn [dispatch] in H.
  - apply mouseTask_Some in H as [_ H].
    destruct mouse as [[|i entries]|].
    + destruct H as [_ ->]. auto.
    + destruct H as [_ H]. destruct (chosenNum st =? i); subst st'; auto.
    + subst st'. auto.
  - apply changeColor_Some in H. destruct (mouseOver st).
    + destruct H as (t1 & t2 & t3 & t4 & ts & d & ws & _ & _ & _ & -> & _). auto.
    + destruct H as (t1 & t2 & ts & d & ws & _ & _ & _ & -> & _). auto.
Qed.

Lemma dispatch_colours (ev : Event) (st : Globals) (e : Env)
    (st' : Globals) (e' : Env) :
  selection_ok st -> colours_ok st ->
  dispatch str ev st e = Some (st', e') ->
  colours_ok st'
  /\ (asteroids st !! localNum2 st = Some Yellow \/ ev = EvEverySecond ->
      asteroids st' !! localNum2 st' = Some Yellow).
Proof.
  intros Hok Hcol H.
  assert (Hsame : ev <> EvEverySecond -> ev <> EvEverySecondRed ->
            colours_ok st'
            /\ (asteroids st !! localNum2 st = Some Yellow \/ ev = EvEverySecond ->
                asteroids st' !! localNum2 st' = Some Yellow)).
  { intros Hn1 Hn2.
    destruct (dispatch_same_targets _ _ _ _ _ Hn1 Hn2 H) as (Ha & Hc & Hl).
    unfold colours_ok. rewrite Ha, Hc, Hl.
    split; [exact Hcol|]. intros [?|?]; [assumption | contradiction]. }
  destruct ev as [mouse| | |]; try (apply Hsame; discriminate);
    cbn [dispatch] in H.
  - destruct (everySecond_colours _ _ _ _ Hok Hcol H). auto.
  - destruct (everySecondRed_colours _ _ _ _ Hok Hcol H) as [? Hkeep].
    split; [assumption|]. rewrite Hkeep. intros [?|?]; [assumption | discriminate].
Qed.

Lemma run_colours (evs : list Event) :
  forall (st : Globals) (e : Env) (st' : Globals) (e' : Env),
  selection_ok st -> colours_ok st ->
  run str evs st e = Some (st', e') ->
  colours_ok st'
  /\ (asteroids st !! localNum2 st = Some Yellow \/ EvEverySecond ∈ evs ->
      asteroids st' !! localNum2 st' = Some Yellow).
Proof.
  induction evs as [|ev evs IH]; intros st e st' e' Hok Hcol H.
  - apply mret_Some in H as [= -> ->]. split; [assumption|].
    intros [?|Hin]; [assumption | inversion Hin].
  - apply run_cons in H as (st1 & e1 & Hd & H).
    destruct (dispatch_colours _ _ _ _ _ Hok Hcol Hd) as [Hcol1 Hy1].
    apply (dispatch_ok str _ _ _ _ _ Hok) in Hd.
    destruct (IH _ _ _ _ Hd Hcol1 H) as [Hcol' Hy'].
    split; [assumption|]. intros [Hy|Hin]; apply Hy'.
    + left. auto.
    + apply elem_of_cons in Hin as [<-|Hin]; [left; auto | right; assumption].
Qed.

(** X1. In every state the program reaches, the red target is the chosen
    one and no other, a yellow target can only be the pre-selected one,
    and every target is blue, red or yellow with the blue ones being all
    the rest. *)
Theorem one_red_target
    (evs : list Event) (e : Env) (st : Globals) (e' : Env) :
  session str evs e = Some (st, e') ->
  length (asteroids st) = 17
  /\ asteroids st !! chosenNum st = Some Red
  /\ forall i c, asteroids st !! i = Some c ->
       (c = Red <-> i = chosenNum st) /\ (c = Yellow -> i = localNum2 st).
Proof.
  intros H. pose proof (session_ok str _ _ _ _ H) as Hok.
  apply bind_Some in H as (st0 & e0 & Hinit & H).
  destruct (run_colours _ _ _ _ _ (init_ok _ _ _ Hinit) (init_colours _ _ _ Hinit) H)
    as [(Hred & Hblue & Hnext) _].
  destruct Hok as (Hne & Hc & Hl & Hlen).
  split; [assumption|]. split; [assumption|]. intros i c Hi.
  assert (Hi17 : i < 17) by (rewrite <- Hlen; eapply lookup_lt_Some; eauto).
  destruct (decide (i = chosenNum st)) as [->|Hic].
  { rewrite Hred in Hi. injection Hi as <-. split; [tauto | discriminate]. }
  destruct (decide (i = localNum2 st)) as [->|Hil].
  { split; [|auto]. split; [|contradiction].
    intros ->. destruct Hnext as [Hn|Hn]; rewrite Hn in Hi; discriminate. }
  rewrite (Hblue i Hi17 Hic Hil) in Hi. injection Hi as <-.
  split; [split; [discriminate | contradiction] | discriminate].
Qed.

(** X2. The pre-selected target is not shown when the program starts:
    after [__init__] it is blue like the rest. It is yellow from the first
    [everySecond] on, whatever callbacks follow. *)
Theorem preselected_target_yellow_after_first_tick
    (evs evs' : list Event) (e : Env) (st : Globals) (e' : Env) :
  session str (evs ++ EvEverySecond :: evs') e = Some (st, e') ->
  (exists st0 e0, init e = Some (st0, e0)
                  /\ asteroids st0 !! localNum2 st0 = Some Blue)
  /\ asteroids st !! localNum2 st = Some Yellow.
Proof.
  intros H. apply bind_Some in H as (st0 & e0 & Hinit & H).
  split.
  - exists st0, e0. split; [assumption|].
    apply init_Some in Hinit
      as (c & rej & l & rest & d & ws & _ & Hc & _ & Hl & Hne & _ & _ & -> & _).
    cbn [asteroids chosenNum localNum2]. rewrite list_lookup_insert_ne by auto.
    apply lookup_replicate. auto.
  - destruct (run_colours _ _ _ _ _ (init_ok _ _ _ Hinit) (init_colours _ _ _ Hinit) H)
      as [_ Hy].
    apply Hy. right. apply elem_of_app. right. apply elem_of_cons. auto.
Qed.

End Colours.

(** ** The callbacks return *)

(** X3. In a state the program reaches no callback raises an index
    error: a frame always returns, and reads nothing from the
    environment; a click returns when the clock readings and the time of
    day it reads are there; a tick returns when the draws hold one it
    accepts. *)
Theorem callbacks_return
    (str : Q -> string) (evs : list Event) (e : Env) (st : Globals) (e1 : Env)
    (ev : Event) (e2 : Env) :
  session str evs e = Some (st, e1) ->
  supplies ev st e2 ->
  exists st' e3,
    dispatch str ev st e2 = Some (st', e3)
    /\ (forall mouse, ev = EvMouseTask mouse -> e3 = e2).
Proof.
  intros Hs Hsup. apply session_ok in Hs.
  destruct ev as [mouse| | |]; cbn [dispatch supplies] in *.
  - assert (Hret : exists st', mouseTask mouse st e2 = Some (st', e2)).
    { destruct Hs as (_ & Hc & _ & Hlen).
      destruct mouse as [[|i entries]|].
      - exists st. apply mouseTask_Some. rewrite Hlen. auto.
      - destruct (chosenNum st =? i) eqn:Hi.
        + eexists. apply mouseTask_Some. rewrite Hlen, Hi. auto.
        + exists st. apply mouseTask_Some. rewrite Hlen, Hi. auto.
      - exists st. apply mouseTask_Some. auto. }
    destruct Hret as [st' Hret]. exists st', e2. auto.
  - destruct Hsup as (Hlen & d & Hd & Hv).
    destruct (wall e2) as [|d' ws] eqn:Hw; [discriminate|].
    injection Hd as ->.
    destruct (mouseOver st) eqn:Hover.
    + destruct (perf e2) as [|t1 [|t2 [|t3 [|t4 ts]]]] eqn:Hp; simpl in Hlen; try lia.
      eexists _, _. split; [|discriminate].
      apply changeColor_Some. rewrite Hover.
      exists t1, t2, t3, t4, ts, d, ws. rewrite Hp, Hw. auto 10.
    + destruct (perf e2) as [|t1 [|t2 ts]] eqn:Hp; simpl in Hlen; try lia.
      eexists _, _. split; [|discriminate].
      apply changeColor_Some. rewrite Hover.
      exists t1, t2, ts, d, ws. rewrite Hp, Hw. auto 10.
  - destruct Hsup as [Hlt Hacc].
    destruct (everySecond_returns st e2 Hs Hlt Hacc) as (st' & e3 & H).
    exists st', e3. split; [assumption | discriminate].
  - destruct Hsup as [Hlt Hacc].
    destruct (everySecondRed_returns st e2 Hs Hlt Hacc) as (st' & e3 & H).
    exists st', e3. split; [assumption | discriminate].
Qed.

(** ** What the ticks can select *)

(** X4. From a state whose two indices differ and lie below 17,
    [everySecondRed] can leave any of the 15 targets that are neither the
    chosen nor the pre-selected one as the new chosen one, and no other
    value. *)
Theorem everySecondRed_reaches (st : Globals) (n : nat) :
  selection_ok st ->
  (exists e st' e', everySecondRed st e = Some (st', e') /\ chosenNum st' = n)
  <-> n < 17 /\ n <> chosenNum st /\ n <> localNum2 st.
Proof.
  intros (Hne & Hc & Hl & Hlen). split.
  - intros (e & st' & e' & H & <-).
    apply everySecondRed_Some in H
      as (rej & n & rest & _ & _ & Hn & Hne1 & Hne2 & _ & _ & -> & _).
    simpl. auto.
  - intros (Hn & Hne1 & Hne2).
    exists (mkEnv [n] [] []). eexists _, _. split.
    + apply everySecondRed_Some. exists [], n, []. rewrite Hlen.
      repeat split; auto.
    + reflexivity.
Qed.

(** X5. [everySecond] can leave any target but the chosen one as the
    pre-selected one, the one that was pre-selected before among them: the
    loop does not reject the old [localNum2]. *)
Theorem everySecond_reaches (st : Globals) (l : nat) :
  selection_ok st ->
  ((exists e st' e', everySecond st e = Some (st', e') /\ localNum2 st' = l)
   <-> l < 17 /\ l <> chosenNum st)
  /\ exists e st' e', everySecond st e = Some (st', e')
                      /\ localNum2 st' = localNum2 st.
Proof.
  intros (Hne & Hc & Hl & Hlen).
  assert (Hreach : forall l, l < 17 -> l <> chosenNum st ->
            exists e st' e', everySecond st e = Some (st', e') /\ localNum2 st' = l).
  { intros l' Hl' Hne'. exists (mkEnv [l'] [] []). eexists _, _. split.
    - apply everySecond_Some. exists [], l', []. rewrite Hlen.
      repeat split; auto.
    - reflexivity. }
  split; [split|].
  - intros (e & st' & e' & H & <-).
    apply everySecond_Some in H
      as (rej & l' & rest & _ & _ & Hl' & Hne' & _ & _ & -> & _).
    simpl. auto.
  - intros [Hl' Hne']. auto.
  - apply Hreach; auto.
Qed.

(** X6. A tick has no result when [randrange] never returns a value its
    loop accepts: [everySecondRed] when every draw is the chosen or the
    pre-selected index, [everySecond] when every draw is the chosen
    index. *)
Theorem ticks_need_an_accepted_draw (st : Globals) (e : Env) :
  (Forall (fun d => d = chosenNum st \/ d = localNum2 st) (draws e) ->
   everySecondRed st e = None)
  /\ (Forall (fun d => d = chosenNum st) (draws e) ->
      everySecond st e = None).
Proof.
  split; intros Hall.
  - destruct (everySecondRed st e) as [[st' e']|] eqn:H; [exfalso | reflexivity].
    apply everySecondRed_Some in H
      as (rej & n & rest & Hds & _ & _ & Hne1 & Hne2 & _).
    rewrite Hds in Hall. apply Forall_app in Hall as [_ Hall].
    inversion Hall as [|? ? [?|?] _]; contradiction.
  - destruct (everySecond st e) as [[st' e']|] eqn:H; [exfalso | reflexivity].
    apply everySecond_Some in H
      as (rej & l & rest & Hds & _ & _ & Hne' & _).
    rewrite Hds in Hall. apply Forall_app in Hall as [_ Hall].
    inversion Hall; contradiction.
Qed.

(** ** The log, line by line *)

Lemma concat_lines_app (ls ls' : list string) :
  concat_lines (ls ++ ls') = concat_lines ls +:+ concat_lines ls'.
Proof.
  induction ls as [|l ls IH]; [reflexivity|].
  cbn [app concat_lines]. rewrite IH, !string_app_assoc. reflexivity.
Qed.

Lemma split_at_concat_lines (ls : list string) :
  Forall (fun l => free_of (ascii_of_nat 10) l = true) ls ->
  split_at (ascii_of_nat 10) (concat_lines ls) = ls ++ [""].
Proof.
  induction 1 as [|l ls Hl _ IH]; [reflexivity|].
  cbn [concat_lines app].
  change (l +:+ LF +:+ concat_lines ls)
    with (l +:+ String (ascii_of_nat 10) (concat_lines ls)).
  rewrite split_at_app by assumption. rewrite IH. reflexivity.
Qed.

(** Reading back the lines of a text made of lines. *)
Lemma lines_concat_lines (ls : list string) :
  Forall (fun l => free_of (ascii_of_nat 10) l = true) ls ->
  lines (concat_lines ls) = ls.
Proof.
  intros H. unfold lines. rewrite (split_at_concat_lines _ H).
  rewrite reverse_app. cbn [reverse rev_append app].
  change (reverse [""]) with [""]. cbn [app].
  apply reverse_involutive.
Qed.

Section Log.

Variable str : Q -> string.

Lemma changeColor_line (st : Globals) (e : Env) (st' : Globals) (e' : Env) :
  changeColor str st e = Some (st', e') ->
  exists r, click_line str r
            /\ record_of_click str st e st' r
            /\ outputDataContents st' = outputDataContents st +:+ r +:+ LF.
Proof.
  intros H. apply changeColor_Some in H. unfold record_of_click.
  destruct (mouseOver st).
  - destruct H as (t1 & t2 & t3 & t4 & ts & d & ws & _ & Hw & Hv & -> & _).
    eexists. split; [|split].
    + exists d, (clamped (t1 - timerOverallNew st)), (clamped (t3 - timerRedNew st)).
      split; [assumption|]. left. reflexivity.
    + exists d, (clamped (t1 - timerOverallNew st)). rewrite Hw.
      split; [reflexivity|]. split; [reflexivity|].
      exists (clamped (t3 - timerRedNew st)). split; reflexivity.
    + cbn [outputDataContents]. rewrite !string_app_assoc. reflexivity.
  - destruct H as (t1 & t2 & ts & d & ws & _ & Hw & Hv & -> & _).
    eexists. split; [|split].
    + exists d, (clamped (t1 - timerOverallNew st)), 0%Q.
      split; [assumption|]. right. reflexivity.
    + exists d, (clamped (t1 - timerOverallNew st)). rewrite Hw.
      split; [reflexivity|]. split; reflexivity.
    + cbn [outputDataContents]. rewrite !string_app_assoc. reflexivity.
Qed.

(** The lines a run appends, click by click: after every part [evs1] of
    the run the log holds the lines of the clicks of [evs1] and no more,
    and when a click comes next, its line is the next one. *)
Lemma run_lines (evs : list Event) :
  forall (st : Globals) (e : Env) (st' : Globals) (e' : Env),
  run str evs st e = Some (st', e') ->
  exists records,
    length records = count_clicks evs
    /\ Forall (click_line str) records
    /\ outputDataContents st' = outputDataContents st +:+ concat_lines records
    /\ forall evs1 evs2, evs = evs1 ++ evs2 ->
         exists st1 e1,
           run str evs1 st e = Some (st1, e1)
           /\ outputDataContents st1
              = outputDataContents st
                  +:+ concat_lines (take (count_clicks evs1) records)
           /\ forall evs3, evs2 = EvMouse1 :: evs3 ->
                exists st2 e2 r,
                  changeColor str st1 e1 = Some (st2, e2)
                  /\ record_of_click str st1 e1 st2 r
                  /\ records !! count_clicks evs1 = Some r.
Proof.
  induction evs as [|ev evs IH]; intros st e st' e' H.
  - apply mret_Some in H as [= -> ->]. exists [].
    cbn [concat_lines]. rewrite string_app_nil_r.
    repeat split; auto.
    intros evs1 evs2 Heq. symmetry in Heq.
    apply app_eq_nil in Heq as [-> ->].
    exists st, e. cbn [count_clicks take concat_lines].
    rewrite string_app_nil_r.
    split; [apply mret_Some; reflexivity|]. split; [reflexivity|].
    intros evs3 [=].
  - apply run_cons in H as (sa & ea & Hd & H).
    destruct (IH _ _ _ _ H) as (records & Hlen & Hrec & Hlog & Hparts).
    assert (Hhead : exists here,
              length here = (if is_click ev then 1 else 0)
              /\ Forall (click_line str) here
              /\ outputDataContents sa = outputDataContents st +:+ concat_lines here
              /\ (ev = EvMouse1 ->
                  exists r, record_of_click str st e sa r /\ here = [r])).
    { destruct (is_click ev) eqn:Hev.
      - destruct ev; try discriminate. cbn [dispatch] in Hd.
        apply changeColor_line in Hd as (r & Hr & Hrc & Hlog1).
        exists [r]. cbn [concat_lines]. rewrite string_app_nil_r.
        repeat split; auto. intros _. exists r. auto.
      - apply (dispatch_no_click str _ _ _ _ _ Hev) in Hd as (Hlog1 & _).
        exists []. cbn [concat_lines]. rewrite string_app_nil_r.
        repeat split; auto. intros ->. discriminate. }
    destruct Hhead as (here & Hhlen & Hhrec & Hhlog & Hhclick).
    exists (here ++ records).
    split; [rewrite length_app, Hhlen, Hlen; reflexivity|].
    split; [apply Forall_app; auto|].
    split; [rewrite Hlog, Hhlog, concat_lines_app, string_app_assoc; reflexivity|].
    intros evs1 evs2 Heq. destruct evs1 as [|ev1 evs1].
    + exists st, e. cbn [count_clicks take concat_lines].
      rewrite take_0. cbn [concat_lines]. rewrite string_app_nil_r.
      split; [apply mret_Some; reflexivity|]. split; [reflexivity|].
      intros evs3 ->. cbn [app] in Heq. injection Heq as -> ->.
      destruct (Hhclick eq_refl) as (r & Hrc & ->).
      exists sa, ea, r. cbn [dispatch] in Hd. auto.
    + cbn [app] in Heq. injection Heq as <- ->.
      destruct (Hparts evs1 evs2 eq_refl) as (st1 & e1 & Hrun1 & Hlog1 & Hnext).
      exists st1, e1. cbn [count_clicks].
      split; [apply run_cons; eauto|].
      assert (Htake : take ((if is_click ev then 1 else 0) + count_clicks evs1)
                        (here ++ records)
                      = here ++ take (count_clicks evs1) records).
      { rewrite <- Hhlen. apply take_app_add. }
      split.
      * rewrite Htake, Hlog1, Hhlog, concat_lines_app, string_app_assoc. reflexivity.
      * intros evs3 Hc. destruct (Hnext evs3 Hc) as (st2 & e2 & r & H2 & Hrc & Hr).
        exists st2, e2, r. repeat split; auto.
        rewrite <- Hhlen, lookup_app_r by lia.
        rewrite Nat.add_comm, Nat.add_sub. assumption.
Qed.

Lemma session_lines (evs : list Event) (e : Env) (st : Globals) (e' : Env) :
  session str evs e = Some (st, e') ->
  exists d records,
    wall e !! 0 = Some d /\ valid_datetime d = true
    /\ length records = count_clicks evs
    /\ Forall (click_line str) records
    /\ outputDataContents st
       = concat_lines ("timeStamp,event,timeSinceLastClick,timeSinceLastRedClick"
                         :: (strftime_HMS d +:+ ",firstRedAppears,,") :: records)
    /\ forall evs1 evs2, evs = evs1 ++ evs2 ->
         exists st1 e1,
           session str evs1 e = Some (st1, e1)
           /\ outputDataContents st1
              = concat_lines
                  ("timeStamp,event,timeSinceLastClick,timeSinceLastRedClick"
                     :: (strftime_HMS d +:+ ",firstRedAppears,,")
                     :: take (count_clicks evs1) records)
           /\ forall evs3, evs2 = EvMouse1 :: evs3 ->
                exists st2 e2 r,
                  changeColor str st1 e1 = Some (st2, e2)
                  /\ record_of_click str st1 e1 st2 r
                  /\ records !! count_clicks evs1 = Some r.
Proof.
  intros H. apply bind_Some in H as (st0 & e0 & Hinit & H).
  apply run_lines in H as (records & Hlen & Hrec & Hlog & Hparts).
  pose proof Hinit as Hinit'.
  apply init_Some in Hinit'
    as (c & rej & l & rest & d & ws & _ & _ & _ & _ & _ & Hw & Hv & Hst0 & _).
  assert (Hlog0 : forall ls,
            outputDataContents st0 +:+ concat_lines ls
            = concat_lines
                ("timeStamp,event,timeSinceLastClick,timeSinceLastRedClick"
                   :: (strftime_HMS d +:+ ",firstRedAppears,,") :: ls)).
  { intros ls. rewrite Hst0. cbn [outputDataContents concat_lines].
    unfold outputDataContents_0. rewrite !string_app_assoc. reflexivity. }
  exists d, records. rewrite Hw, Hlog, Hlog0.
  repeat split; auto.
  intros evs1 evs2 Heq.
  destruct (Hparts evs1 evs2 Heq) as (st1 & e1 & Hrun1 & Hlog1 & Hnext).
  exists st1, e1. rewrite Hlog1, Hlog0.
  split; [apply bind_Some; eauto|]. split; [reflexivity | exact Hnext].
Qed.

Lemma click_line_free (c : ascii) (r : string) :
  nat_of_ascii c < 44 ->
  (forall q, free_of c (str q) = true) ->
  click_line str r -> free_of c r = true.
Proof.
  intros Hc Hstr (d & a & b & Hv & [-> | ->]);
    rewrite !free_of_app, !Hstr, strftime_HMS_free by (assumption || lia);
    cbn [andb]; rewrite ?andb_true_r.
  - assert (H1 : free_of c ",leftClkInsideRed," = true).
    { clear - Hc. cbn [free_of]. rewrite !andb_true_iff, !negb_true_iff.
      repeat split; apply Ascii.eqb_neq; intros <-; vm_compute in Hc; lia. }
    assert (H2 : free_of c "," = true).
    { clear - Hc. cbn [free_of]. rewrite andb_true_r, negb_true_iff.
      apply Ascii.eqb_neq; intros <-; vm_compute in Hc; lia. }
    rewrite H1, H2. reflexivity.
  - assert (H1 : free_of c ",leftClkOutsideRed," = true).
    { clear - Hc. cbn [free_of]. rewrite !andb_true_iff, !negb_true_iff.
      repeat split; apply Ascii.eqb_neq; intros <-; vm_compute in Hc; lia. }
    assert (H2 : free_of c "," = true).
    { clear - Hc. cbn [free_of]. rewrite andb_true_r, negb_true_iff.
      apply Ascii.eqb_neq; intros <-; vm_compute in Hc; lia. }
    rewrite H1, H2. reflexivity.
Qed.

(** X7. The log is the header, the [firstRedAppears] line of the start
    and then one line for each click and nothing else, each followed by a
    line feed, in the order of the clicks: the line at place [k] among
    them is the one written by the click that [k] clicks precede, with the
    time of day that click read, the kind [mouseOver] gave it and the
    elapsed times it stored. Nothing written is changed: after every part
    of the run the log is the header, the [firstRedAppears] line and the
    lines of the clicks so far, a beginning of the final log. Ticks and
    frames write nothing. *)
Theorem log_has_one_line_per_click
    (evs : list Event) (e : Env) (st : Globals) (e' : Env) :
  session str evs e = Some (st, e') ->
  exists d records,
    wall e !! 0 = Some d
    /\ length records = count_clicks evs
    /\ Forall (click_line str) records
    /\ outputDataContents st
       = concat_lines ("timeStamp,event,timeSinceLastClick,timeSinceLastRedClick"
                         :: (strftime_HMS d +:+ ",firstRedAppears,,") :: records)
    /\ forall evs1 evs2, evs = evs1 ++ evs2 ->
         exists st1 e1,
           session str evs1 e = Some (st1, e1)
           /\ outputDataContents st1
              = concat_lines
                  ("timeStamp,event,timeSinceLastClick,timeSinceLastRedClick"
                     :: (strftime_HMS d +:+ ",firstRedAppears,,")
                     :: take (count_clicks evs1) records)
           /\ forall evs3, evs2 = EvMouse1 :: evs3 ->
                exists st2 e2 r,
                  changeColor str st1 e1 = Some (st2, e2)
                  /\ record_of_click str st1 e1 st2 r
                  /\ records !! count_clicks evs1 = Some r.
Proof.
  intros H.
  apply session_lines in H as (d & records & Hw & _ & Hlen & Hrec & Hlog & Hparts).
  exists d, records. auto 10.
Qed.

End Log.

Section WrittenFile.

Variable str : Q -> string.

Lemma inside_line_fields (d : datetime) (a b : Q) :
  valid_datetime d = true ->
  (forall q, free_of "," (str q) = true) ->
  fields (strftime_HMS d +:+ ",leftClkInsideRed," +:+ str a +:+ "," +:+ str b)
  = [strftime_HMS d; "leftClkInsideRed"; str a; str b].
Proof.
  intros Hv Hstr. unfold fields.
  change (strftime_HMS d +:+ ",leftClkInsideRed," +:+ str a +:+ "," +:+ str b)
    with (strftime_HMS d +:+ String ","
            ("leftClkInsideRed" +:+ String "," (str a +:+ String "," (str b)))).
  rewrite split_at_app by (apply strftime_HMS_free; [assumption | vm_compute; lia]).
  rewrite split_at_app by reflexivity.
  rewrite split_at_app by apply Hstr.
  rewrite split_at_free by apply Hstr. reflexivity.
Qed.

Lemma outside_line_fields (d : datetime) (a : Q) :
  valid_datetime d = true ->
  (forall q, free_of "," (str q) = true) ->
  fields (strftime_HMS d +:+ ",leftClkOutsideRed," +:+ str a +:+ ",")
  = [strftime_HMS d; "leftClkOutsideRed"; str a; ""].
Proof.
  intros Hv Hstr. unfold fields.
  change (strftime_HMS d +:+ ",leftClkOutsideRed," +:+ str a +:+ ",")
    with (strftime_HMS d +:+ String ","
            ("leftClkOutsideRed" +:+ String "," (str a +:+ String "," ""))).
  rewrite split_at_app by (apply strftime_HMS_free; [assumption | vm_compute; lia]).
  rewrite split_at_app by reflexivity.
  rewrite split_at_app by apply Hstr. reflexivity.
Qed.

(** X8. When [str] writes no line feed, the file written at ["escape"]
    has two lines more than there were clicks: the header, the
    [firstRedAppears] line, and the lines of the clicks in their order:
    the line that follows them at place [k] is the one written by the
    click that [k] clicks precede, with the time of day that click read,
    the kind [mouseOver] gave it and the elapsed times it stored. *)
Theorem written_file_lines
    (evs : list Event) (e : Env) (f : File) (e' : Env) :
  (forall q, free_of (ascii_of_nat 10) (str q) = true) ->
  session_to_exit str evs e = Some (f, e') ->
  length (lines (fileContents f)) = 2 + count_clicks evs
  /\ exists d records,
       wall e !! 0 = Some d
       /\ Forall (click_line str) records
       /\ lines (fileContents f)
          = "timeStamp,event,timeSinceLastClick,timeSinceLastRedClick"
              :: (strftime_HMS d +:+ ",firstRedAppears,,") :: records
       /\ forall evs1 evs3, evs = evs1 ++ EvMouse1 :: evs3 ->
            exists st1 e1 st2 e2 r,
              session str evs1 e = Some (st1, e1)
              /\ changeColor str st1 e1 = Some (st2, e2)
              /\ record_of_click str st1 e1 st2 r
              /\ lines (fileContents f) !! (2 + count_clicks evs1) = Some r.
Proof.
  intros Hstr H. unfold session_to_exit in H.
  apply bind_Some in H as (st & e1 & Hs & H).
  apply saveDataExit_contents in H. rewrite H.
  apply session_lines in Hs
    as (d & records & Hw & Hv & Hlen & Hrec & Hlog & Hparts).
  rewrite Hlog, lines_concat_lines.
  - cbn [length]. rewrite Hlen. split; [reflexivity|].
    exists d, records. repeat split; auto.
    intros evs1 evs3 Heq.
    destruct (Hparts evs1 (EvMouse1 :: evs3) Heq) as (st1 & e1' & Hs1 & _ & Hnext).
    destruct (Hnext evs3 eq_refl) as (st2 & e2 & r & H2 & Hrc & Hr).
    exists st1, e1', st2, e2, r. auto.
  - constructor; [reflexivity|]. constructor.
    + rewrite free_of_app, strftime_HMS_free; [reflexivity | assumption |].
      vm_compute. lia.
    + eapply Forall_impl; [exact Hrec|]. cbn beta. intros r Hr.
      apply (click_line_free str); [vm_compute; lia | assumption | assumption].
Qed.

(** X9. When [str] writes no comma, the record a click appends reads
    back as four fields, as many as the header names: the time of day,
    [leftClkInsideRed] or [leftClkOutsideRed] according to [mouseOver], the
    elapsed time the click stored in [timerOverall] and, for a click on
    red, the one it stored in [timerRed]; the last field is empty for a
    click outside. *)
Theorem click_record_fields
    (st : Globals) (e : Env) (st' : Globals) (e' : Env) :
  (forall q, free_of "," (str q) = true) ->
  changeColor str st e = Some (st', e') ->
  exists r d d1,
    outputDataContents st' = outputDataContents st +:+ r +:+ LF
    /\ wall e !! 0 = Some d
    /\ timerOverall st' = Some d1
    /\ if mouseOver st then
         exists d2, timerRed st' = Some d2
           /\ fields r = [strftime_HMS d; "leftClkInsideRed"; str d1; str d2]
       else
         fields r = [strftime_HMS d; "leftClkOutsideRed"; str d1; ""].
Proof.
  intros Hstr H. apply changeColor_Some in H. destruct (mouseOver st).
  - destruct H as (t1 & t2 & t3 & t4 & ts & d & ws & _ & Hw & Hv & -> & _).
    exists (strftime_HMS d +:+ ",leftClkInsideRed,"
              +:+ str (clamped (t1 - timerOverallNew st)) +:+ ","
              +:+ str (clamped (t3 - timerRedNew st))),
      d, (clamped (t1 - timerOverallNew st)).
    rewrite Hw. cbn [outputDataContents timerOverall timerRed].
    split; [rewrite !string_app_assoc; reflexivity|].
    split; [reflexivity|]. split; [reflexivity|].
    exists (clamped (t3 - timerRedNew st)). split; [reflexivity|].
    apply inside_line_fields; assumption.
  - destruct H as (t1 & t2 & ts & d & ws & _ & Hw & Hv & -> & _).
    exists (strftime_HMS d +:+ ",leftClkOutsideRed,"
              +:+ str (clamped (t1 - timerOverallNew st)) +:+ ","),
      d, (clamped (t1 - timerOverallNew st)).
    rewrite Hw. cbn [outputDataContents timerOverall timerRed].
    split; [rewrite !string_app_assoc; reflexivity|].
    split; [reflexivity|]. split; [reflexivity|].
    apply outside_line_fields; assumption.
Qed.

End WrittenFile.

(** ** Clicks, one after the other *)

Section ClickSequences.

Variable str : Q -> string.

Lemma changeColor_outside (st : Globals) (e : Env) (st' : Globals) (e' : Env) :
  mouseOver st = false ->
  changeColor str st e = Some (st', e') ->
  mouseOver st' = false
  /\ timerRedNew st' = timerRedNew st /\ timerRed st' = timerRed st.
Proof.
  intros Hover H. apply changeColor_Some in H. rewrite Hover in H.
  destruct H as (t1 & t2 & ts & d & ws & _ & _ & _ & -> & _). auto.
Qed.

(** X10. The flag [mouseOver] outlives the target it was set for: when a
    frame has found the mouse over the chosen target and [everySecondRed]
    then moves the red target elsewhere, the next click is still recorded
    as [leftClkInsideRed], and it clears the flag. *)
Theorem click_after_retarget_recorded_inside
    (i : nat) (entries : list nat) (st : Globals) (e : Env)
    (st1 : Globals) (e1 : Env) (st2 : Globals) (e2 : Env)
    (st3 : Globals) (e3 : Env) :
  i = chosenNum st ->
  mouseTask (Some (i :: entries)) st e = Some (st1, e1) ->
  everySecondRed st1 e1 = Some (st2, e2) ->
  changeColor str st2 e2 = Some (st3, e3) ->
  chosenNum st2 <> i
  /\ mouseOver st3 = false
  /\ exists d d1 d2,
       outputDataContents st3
       = outputDataContents st2 +:+ strftime_HMS d +:+ ",leftClkInsideRed,"
           +:+ str d1 +:+ "," +:+ str d2 +:+ LF.
Proof.
  intros -> Hframe Htick Hclick.
  apply mouseTask_Some in Hframe as [-> [_ Hframe]].
  rewrite Nat.eqb_refl in Hframe. subst st1.
  apply everySecondRed_Some in Htick
    as (rej & n & rest & _ & _ & _ & Hne1 & _ & _ & _ & -> & ->).
  apply changeColor_Some in Hclick. cbn [mouseOver chosenNum] in *.
  destruct Hclick as (t1 & t2 & t3 & t4 & ts & d & ws & _ & _ & _ & -> & _).
  split; [assumption|]. split; [reflexivity|]. eexists d, _, _. reflexivity.
Qed.

(** X11. The time between two clicks is counted against the cursor the
    earlier click left. When the later click reads the clock,
    [timerOverallNew] still holds the second clock reading of the earlier
    click, whatever ticks and frames came in between: they read no clock
    and leave the cursor alone, so the later click reads the reading that
    follows those of the earlier one. The elapsed time the later click
    stores is never negative, is 0 when its first reading lies before that
    cursor, and is positive when it lies after it. *)
Theorem elapsed_between_clicks
    (evs : list Event) (st : Globals) (e : Env) (st1 : Globals) (e1 : Env)
    (st2 : Globals) (e2 : Env) (st3 : Globals) (e3 : Env) :
  changeColor str st e = Some (st1, e1) ->
  existsb is_click evs = false ->
  run str evs st1 e1 = Some (st2, e2) ->
  changeColor str st2 e2 = Some (st3, e3) ->
  exists t2 u1 d,
    perf e !! 1 = Some t2
    /\ timerOverallNew st2 = t2
    /\ perf e2 = perf e1
    /\ perf e2 !! 0 = Some u1
    /\ timerOverall st3 = Some d
    /\ (0 <= d)%Q
    /\ ((u1 < t2)%Q -> d = 0%Q)
    /\ ((t2 < u1)%Q -> (0 < d)%Q).
Proof.
  intros H1 Hevs Hrun H2.
  apply (run_no_click str _ _ _ _ _ Hevs) in Hrun as (_ & HO & _ & Hp & _).
  assert (Hfirst : exists t2, perf e !! 1 = Some t2 /\ timerOverallNew st1 = t2).
  { apply changeColor_Some in H1. destruct (mouseOver st).
    - destruct H1 as (t1 & t2 & t3 & t4 & ts & d & ws & Hp1 & _ & _ & -> & _).
      exists t2. rewrite Hp1. auto.
    - destruct H1 as (t1 & t2 & ts & d & ws & Hp1 & _ & _ & -> & _).
      exists t2. rewrite Hp1. auto. }
  destruct Hfirst as (t2 & Ht2 & Hcur).
  assert (Hsecond : exists u1, perf e2 !! 0 = Some u1
            /\ timerOverall st3 = Some (clamped (u1 - timerOverallNew st2))).
  { apply changeColor_Some in H2. destruct (mouseOver st2).
    - destruct H2 as (u1 & u2 & u3 & u4 & us & d & ws & Hp2 & _ & _ & -> & _).
      exists u1. rewrite Hp2. auto.
    - destruct H2 as (u1 & u2 & us & d & ws & Hp2 & _ & _ & -> & _).
      exists u1. rewrite Hp2. auto. }
  destruct Hsecond as (u1 & Hu1 & Hel).
  exists t2, u1, (clamped (u1 - t2)). rewrite Hel, HO, Hcur.
  repeat split; auto using clamped_nonneg.
  - intros Hlt. apply clamped_neg. lra.
  - intros Hlt. rewrite clamped_pos; lra.
Qed.

(** X12. As long as no frame finds a collision entry, clicks and ticks
    in any number leave [mouseOver] false and do not touch the cursor and
    the elapsed time of the clicks on red. *)
Theorem red_cursor_kept_without_hit (evs : list Event) :
  forall (st : Globals) (e : Env) (st' : Globals) (e' : Env),
  mouseOver st = false ->
  forallb no_entry evs = true ->
  run str evs st e = Some (st', e') ->
  mouseOver st' = false
  /\ timerRedNew st' = timerRedNew st /\ timerRed st' = timerRed st.
Proof.
  induction evs as [|ev evs IH]; intros st e st' e' Hover Hevs H.
  - apply mret_Some in H as [= -> ->]. auto.
  - cbn [forallb] in Hevs. apply andb_true_iff in Hevs as [Hev Hevs].
    apply run_cons in H as (st1 & e1 & Hd & H).
    assert (Hstep : mouseOver st1 = false
              /\ timerRedNew st1 = timerRedNew st /\ timerRed st1 = timerRed st).
    { destruct (is_click ev) eqn:Hclick.
      - destruct ev; try discriminate. cbn [dispatch] in Hd.
        eapply changeColor_outside; eauto.
      - assert (Hq : quiet ev = true)
          by (destruct ev as [[[|? ?]|]| | |]; try discriminate; reflexivity).
        pose proof (dispatch_quiet str _ _ _ _ _ Hq Hd) as Hm.
        apply (dispatch_no_click str _ _ _ _ _ Hclick) in Hd
          as (_ & _ & HR & _ & HRN & _).
        rewrite Hm. auto. }
    destruct Hstep as (Hover1 & HRN1 & HR1).
    destruct (IH _ _ _ _ Hover1 Hevs H) as (Hover' & HRN' & HR').
    repeat split; congruence.
Qed.

End ClickSequences.

(** ** The identifier, draw by draw *)

Lemma characters_distinct : distinct characters = true.
Proof. vm_compute. reflexivity. Qed.

Lemma string_get_inj (s : string) :
  distinct s = true ->
  forall (i j : nat) (c : ascii),
  String.get i s = Some c -> String.get j s = Some c -> i = j.
Proof.
  induction s as [|x s IH]; intros Hd i j c Hi Hj; simpl in Hi; [discriminate|].
  cbn [distinct] in Hd. apply andb_true_iff in Hd as [Hx Hd].
  simpl in Hj. destruct i as [|i], j as [|j].
  - reflexivity.
  - injection Hi as ->. apply string_get_occurs in Hj. congruence.
  - injection Hj as ->. apply string_get_occurs in Hi. congruence.
  - f_equal. eauto.
Qed.

Lemma id_of_draws_length (ds : list nat) :
  forall id, id_of_draws ds = Some id -> String.length id = length ds.
Proof.
  induction ds as [|d ds IH]; intros id H; cbn [id_of_draws] in H.
  - injection H as <-. reflexivity.
  - destruct (String.get d characters); [|discriminate].
    destruct (id_of_draws ds) as [s|]; [|discriminate].
    injection H as <-. cbn [String.length length]. rewrite (IH s); reflexivity.
Qed.

Lemma id_of_draws_inj (ds1 : list nat) :
  forall (ds2 : list nat) (id : string),
  id_of_draws ds1 = Some id -> id_of_draws ds2 = Some id -> ds1 = ds2.
Proof.
  induction ds1 as [|d1 ds1 IH]; intros [|d2 ds2] id H1 H2;
    cbn [id_of_draws] in H1, H2.
  - reflexivity.
  - injection H1 as <-.
    destruct (String.get d2 characters); [|discriminate].
    destruct (id_of_draws ds2); discriminate.
  - injection H2 as <-.
    destruct (String.get d1 characters); [|discriminate].
    destruct (id_of_draws ds1); discriminate.
  - destruct (String.get d1 characters) as [c1|] eqn:Hc1; [|discriminate].
    destruct (id_of_draws ds1) as [s1|] eqn:Hs1; [|discriminate].
    destruct (String.get d2 characters) as [c2|] eqn:Hc2; [|discriminate].
    destruct (id_of_draws ds2) as [s2|] eqn:Hs2; [|discriminate].
    injection H1 as <-. injection H2 as -> ->.
    f_equal.
    + exact (string_get_inj _ characters_distinct _ _ _ Hc1 Hc2).
    + eapply IH; eauto.
Qed.

Lemma makeid_loop_draws (n : nat) :
  forall (res : string) (e : Env) (s : string) (e' : Env),
  makeid_loop n res e = Some (s, e') <->
  n <= length (draws e)
  /\ exists id, id_of_draws (take n (draws e)) = Some id
                /\ s = res +:+ id
                /\ e' = mkEnv (drop n (draws e)) (perf e) (wall e).
Proof.
  induction n as [|n IH]; intros res e s e'; cbn [makeid_loop].
  - rewrite mret_Some. destruct e as [ds ts ws]. cbn [take drop draws perf wall].
    split.
    + intros [= -> ->]. split; [lia|]. exists "".
      rewrite string_app_nil_r. auto.
    + intros (_ & id & [= <-] & -> & ->). rewrite string_app_nil_r. reflexivity.
  - rewrite bind_Some. split.
    + intros (d & e1 & Hd & H).
      apply bind_Some in H as (c & e2 & Hc & H).
      apply lift_Some in Hc as (c0 & Hc & [= -> ->]).
      apply randrange_Some in Hd as (ds & Hds & Hlt & ->).
      apply IH in H as (Hlen & id & Hid & -> & ->).
      cbn [draws perf wall] in *. rewrite Hds.
      split; [simpl; lia|]. exists (String c0 id).
      cbn [take drop id_of_draws]. rewrite Hc, Hid, string_app_assoc. auto.
    + intros (Hlen & id & Hid & -> & ->).
      destruct (draws e) as [|d ds] eqn:Hds; [simpl in Hlen; lia|].
      cbn [take drop id_of_draws] in *.
      destruct (String.get d characters) as [c|] eqn:Hc; [|discriminate].
      destruct (id_of_draws (take n ds)) as [id'|] eqn:Hid'; [|discriminate].
      injection Hid as <-.
      assert (Hlt : d < charactersLength).
      { destruct (Nat.lt_ge_cases d charactersLength) as [?|Hge]; [assumption|].
        exfalso. clear - Hc Hge. revert d Hc Hge. unfold charactersLength.
        generalize characters. intros s. induction s as [|x s IHs]; intros d Hc Hge.
        - discriminate.
        - simpl in Hc, Hge. destruct d as [|d]; [lia|]. apply (IHs d); [assumption | lia]. }
      exists d, (mkEnv ds (perf e) (wall e)). split.
      { apply randrange_Some. exists ds. auto. }
      apply bind_Some. exists c, (mkEnv ds (perf e) (wall e)). split.
      { apply lift_Some. eauto. }
      apply IH. cbn [draws perf wall]. split; [simpl in Hlen; lia|].
      exists id'. rewrite string_app_assoc. auto.
Qed.

(** X13. For every length, [makeid(length)] takes exactly [length] draws
    and spells them: its result is [characters[d]] for each of the first
    [length] draws [d], in their order, so it has [length] characters
    ([makeid(0)] is the empty string); the draws after them, the clock and
    the time of day are left as they were. It has no result only when
    fewer than [length] draws below 62 are there. *)
Theorem makeid_spells_the_draws (n : nat) (e : Env) (id : string) (e' : Env) :
  makeid n e = Some (id, e') <->
  n <= length (draws e)
  /\ id_of_draws (take n (draws e)) = Some id
  /\ String.length id = n
  /\ e' = mkEnv (drop n (draws e)) (perf e) (wall e).
Proof.
  unfold makeid. rewrite makeid_loop_draws. split.
  - intros (Hlen & id' & Hid & -> & ->). cbn [String.append].
    repeat split; auto.
    rewrite (id_of_draws_length _ _ Hid), length_take. lia.
  - intros (Hlen & Hid & _ & ->). split; [assumption|]. exists id. auto.
Qed.

(** X14. The identifier tells the draws: two calls of [makeid] with the
    same length that return the same identifier took the same draws. *)
Theorem makeid_injective
    (n : nat) (e1 e2 : Env) (id : string) (e1' e2' : Env) :
  makeid n e1 = Some (id, e1') ->
  makeid n e2 = Some (id, e2') ->
  take n (draws e1) = take n (draws e2).
Proof.
  unfold makeid. rewrite !makeid_loop_draws.
  intros (_ & id1 & H1 & Heq1 & _) (_ & id2 & H2 & Heq2 & _).
  cbn [String.append] in Heq1, Heq2. subst id1 id2.
  eapply id_of_draws_inj; eauto.
Qed.

(** ** The first click, below the sentinel *)

Section FirstClick.

Variable str : Q -> string.

Lemma run_no_click_timers (evs : list Event) :
  forall (st : Globals) (e : Env) (st' : Globals) (e' : Env),
  existsb is_click evs = false ->
  run str evs st e = Some (st', e') ->
  timerOverall st' = timerOverall st /\ timerRed st' = timerRed st.
Proof.
  induction evs as [|ev evs IH]; intros st e st' e' Hevs H.
  - apply mret_Some in H as [= -> ->]. auto.
  - simpl in Hevs. apply orb_false_iff in Hevs as [Hev Hevs].
    apply run_cons in H as (st1 & e1 & Hd & H).
    apply (dispatch_no_click str _ _ _ _ _ Hev) in Hd as (_ & HO & HR & _).
    apply IH in H as [HO' HR']; [|assumption].
    split; congruence.
Qed.

(** X15. As long as the clock reads less than 99999, the first click of
    a run records 0 for the time since the last click; when it is a click
    on red, one that finds [mouseOver] true, it records 0 for the time
    since the last click on red too, and when it is a click outside it
    leaves [timerRed] unbound. *)
Theorem first_click_elapsed_zero_below_sentinel
    (evs : list Event) (e : Env) (st : Globals) (e' : Env) :
  Forall (fun t => (t < 99999)%Q) (perf e) ->
  existsb is_click evs = false ->
  session str (evs ++ [EvMouse1]) e = Some (st, e') ->
  exists st1 e1,
    session str evs e = Some (st1, e1)
    /\ changeColor str st1 e1 = Some (st, e')
    /\ timerOverall st = Some 0%Q
    /\ timerRed st = (if mouseOver st1 then Some 0%Q else None).
Proof.
  intros Hlt Hevs H.
  apply session_app in H as (st1 & e1 & Hs & H).
  apply run_cons in H as (st2 & e2 & Hclick & H).
  apply mret_Some in H as [= -> ->]. cbn [dispatch] in Hclick.
  exists st1, e1. split; [exact Hs|]. split; [exact Hclick|].
  apply bind_Some in Hs as (st0 & e0 & Hinit & Hrun).
  destruct (run_no_click str _ _ _ _ _ Hevs Hrun) as (_ & HO & HR & Hp & _).
  destruct (run_no_click_timers _ _ _ _ _ Hevs Hrun) as [_ HtR].
  apply init_Some in Hinit
    as (c & rej & l & rest & d & ws & _ & _ & _ & _ & _ & _ & _ & -> & ->).
  cbn [timerOverallNew timerRedNew timerRed perf] in *.
  assert (Hzero : forall t, t ∈ perf e -> clamped (t - 99999) = 0%Q).
  { intros t Ht. apply clamped_neg.
    rewrite Forall_forall in Hlt. specialize (Hlt t Ht). lra. }
  apply changeColor_Some in Hclick. rewrite HO, HR, Hp in Hclick.
  destruct (mouseOver st1).
  - destruct Hclick as (t1 & t2 & t3 & t4 & ts & d' & ws' & Hpe & _ & _ & -> & _).
    cbn [timerOverall timerRed]. rewrite !Hzero; [auto | |]; rewrite Hpe.
    + do 2 apply list_elem_of_further. apply list_elem_of_here.
    + apply list_elem_of_here.
  - destruct Hclick as (t1 & t2 & ts & d' & ws' & Hpe & _ & _ & -> & _).
    cbn [timerOverall timerRed]. rewrite Hzero, HtR.
    + auto.
    + rewrite Hpe. apply list_elem_of_here.
Qed.

End FirstClick.

(** * The further properties at work on the sample run *)

Lemma one_red_target_witness :
  exists st e',
    session sample_str [EvEverySecondRed; EvEverySecond] sample_env = Some (st, e')
    /\ asteroids st !! chosenNum st = Some Red.
Proof.
  eexists _, _. split; [vm_compute; reflexivity|].
  eapply (one_red_target sample_str [EvEverySecondRed; EvEverySecond] sample_env).
  vm_compute; reflexivity.
Defined.

Lemma preselected_target_yellow_after_first_tick_witness :
  exists st e',
    session sample_str ([EvEverySecondRed] ++ EvEverySecond :: [EvMouseTask None])
      sample_env = Some (st, e')
    /\ asteroids st !! localNum2 st = Some Yellow.
Proof.
  eexists _, _. split; [vm_compute; reflexivity|].
  eapply (preselected_target_yellow_after_first_tick sample_str
            [EvEverySecondRed] [EvMouseTask None] sample_env).
  vm_compute; reflexivity.
Defined.

Lemma callbacks_return_witness :
  exists st' e3,
    dispatch sample_str EvEverySecondRed sample_state tick_env = Some (st', e3).
Proof.
  edestruct (callbacks_return sample_str [] sample_env sample_state
               (mkEnv (drop 3 (draws sample_env)) (perf sample_env)
                  (drop 1 (wall sample_env)))
               EvEverySecondRed tick_env) as (st' & e3 & H & _).
  - vm_compute; reflexivity.
  - cbn [supplies tick_env draws]. split.
    + repeat (apply Forall_cons; split; [lia|]). apply Forall_nil. exact I.
    + exists 7. split; [|split; vm_compute; lia].
      do 2 apply list_elem_of_further. apply list_elem_of_here.
  - exists st', e3. exact H.
Defined.

Lemma everySecondRed_reaches_witness :
  exists e st' e', everySecondRed sample_state e = Some (st', e') /\ chosenNum st' = 7.
Proof.
  apply (everySecondRed_reaches sample_state 7).
  - unfold selection_ok. vm_compute. repeat split; (lia || discriminate).
  - vm_compute. repeat split; (lia || discriminate).
Defined.

Lemma everySecond_reaches_witness :
  exists e st' e',
    everySecond sample_state e = Some (st', e')
    /\ localNum2 st' = localNum2 sample_state.
Proof.
  apply (everySecond_reaches sample_state 5).
  unfold selection_ok. vm_compute. repeat split; (lia || discriminate).
Defined.

Lemma ticks_need_an_accepted_draw_witness :
  everySecondRed sample_state (mkEnv [3; 5; 3] [] []) = None.
Proof.
  apply (ticks_need_an_accepted_draw sample_state (mkEnv [3; 5; 3] [] [])).
  cbn [draws sample_state chosenNum localNum2].
  repeat (apply Forall_cons; split; [auto|]). apply Forall_nil. exact I.
Defined.

Lemma log_has_one_line_per_click_witness :
  exists st e' d records,
    session sample_str [EvEverySecondRed; EvMouseTask (Some [7]); EvMouse1; EvMouse1]
      sample_env = Some (st, e')
    /\ wall sample_env !! 0 = Some d
    /\ length records = 2
    /\ outputDataContents st
       = concat_lines ("timeStamp,event,timeSinceLastClick,timeSinceLastRedClick"
                         :: (strftime_HMS d +:+ ",firstRedAppears,,") :: records).
Proof.
  edestruct (log_has_one_line_per_click sample_str
               [EvEverySecondRed; EvMouseTask (Some [7]); EvMouse1; EvMouse1]
               sample_env) as (d & records & Hw & Hlen & _ & Hlog & _);
    [vm_compute; reflexivity|].
  eexists _, _, d, records. split; [vm_compute; reflexivity|].
  split; [exact Hw|]. split; [exact Hlen | exact Hlog].
Defined.

Lemma written_file_lines_witness :
  exists f e',
    session_to_exit plain_str
      [EvEverySecondRed; EvMouseTask (Some [7]); EvMouse1; EvMouse1; EvEverySecond]
      sample_env = Some (f, e')
    /\ length (lines (fileContents f)) = 4.
Proof.
  eexists _, _. split; [vm_compute; reflexivity|].
  eapply (written_file_lines plain_str
            [EvEverySecondRed; EvMouseTask (Some [7]); EvMouse1; EvMouse1; EvEverySecond]
            sample_env).
  - intros q. reflexivity.
  - vm_compute; reflexivity.
Defined.

Lemma click_record_fields_witness :
  exists st' e' r,
    changeColor plain_str sample_state_over click_env = Some (st', e')
    /\ outputDataContents st' = outputDataContents sample_state_over +:+ r +:+ LF
    /\ length (fields r) = 4.
Proof.
  edestruct (click_record_fields plain_str sample_state_over click_env)
    as (r & d & d1 & Hlog & _ & _ & d2 & _ & Hfields).
  - intros q. reflexivity.
  - vm_compute; reflexivity.
  - eexists _, _, r. split; [vm_compute; reflexivity|].
    split; [exact Hlog|]. rewrite Hfields. reflexivity.
Defined.

Lemma click_after_retarget_recorded_inside_witness :
  exists st2 e2 st3 e3,
    everySecondRed sample_state_over
      (mkEnv [3; 5; 7] (perf click_env) (wall click_env)) = Some (st2, e2)
    /\ changeColor sample_str st2 e2 = Some (st3, e3)
    /\ chosenNum st2 <> 3
    /\ mouseOver st3 = false.
Proof.
  eexists _, _, _, _. split; [vm_compute; reflexivity|].
  split; [vm_compute; reflexivity|].
  edestruct (click_after_retarget_recorded_inside sample_str 3 [] sample_state
               (mkEnv [3; 5; 7] (perf click_env) (wall click_env)))
    as (Hne & Hover & _).
  - reflexivity.
  - vm_compute; reflexivity.
  - vm_compute; reflexivity.
  - vm_compute; reflexivity.
  - split; [exact Hne | exact Hover].
Defined.

Lemma elapsed_between_clicks_witness :
  exists st1 e1 st2 e2 st3 e3,
    changeColor sample_str sample_state
      (mkEnv [7] [(12 # 1)%Q; (13 # 1)%Q; (14 # 1)%Q; (15 # 1)%Q]
         [mkDatetime 9 6 1; mkDatetime 9 6 3]) = Some (st1, e1)
    /\ run sample_str [EvEverySecond] st1 e1 = Some (st2, e2)
    /\ changeColor sample_str st2 e2 = Some (st3, e3)
    /\ timerOverallNew st2 = (13 # 1)%Q
    /\ exists d, timerOverall st3 = Some d /\ (0 < d)%Q.
Proof.
  eexists _, _, _, _, _, _. split; [vm_compute; reflexivity|].
  split; [vm_compute; reflexivity|]. split; [vm_compute; reflexivity|].
  edestruct (elapsed_between_clicks sample_str [EvEverySecond] sample_state
               (mkEnv [7] [(12 # 1)%Q; (13 # 1)%Q; (14 # 1)%Q; (15 # 1)%Q]
                  [mkDatetime 9 6 1; mkDatetime 9 6 3]))
    as (t2 & u1 & d & Ht2 & Hcur & _ & Hu1 & Hel & _ & _ & Hpos).
  - vm_compute; reflexivity.
  - reflexivity.
  - vm_compute; reflexivity.
  - vm_compute; reflexivity.
  - vm_compute in Ht2, Hu1. injection Ht2 as <-. injection Hu1 as <-.
    split; [exact Hcur|]. exists d. split; [exact Hel|].
    apply Hpos. reflexivity.
Defined.

Lemma red_cursor_kept_without_hit_witness :
  exists st' e',
    run sample_str [EvMouse1; EvEverySecond; EvMouseTask None] sample_state
      (mkEnv [7] [(12 # 1)%Q; (13 # 1)%Q] [mkDatetime 9 6 1]) = Some (st', e')
    /\ mouseOver st' = false
    /\ timerRedNew st' = timerRedNew sample_state
    /\ timerRed st' = timerRed sample_state.
Proof.
  eexists _, _. split; [vm_compute; reflexivity|].
  eapply (red_cursor_kept_without_hit sample_str
            [EvMouse1; EvEverySecond; EvMouseTask None] sample_state
            (mkEnv [7] [(12 # 1)%Q; (13 # 1)%Q] [mkDatetime 9 6 1]));
    [reflexivity | reflexivity | vm_compute; reflexivity].
Defined.

Lemma makeid_spells_the_draws_witness :
  makeid 3 (mkEnv [0; 26; 61; 9] [] []) = Some ("Aa9", mkEnv [9] [] []).
Proof.
  apply (makeid_spells_the_draws 3 (mkEnv [0; 26; 61; 9] [] [])).
  cbn [draws perf wall length take drop]. split; [lia|].
  split; [reflexivity|]. split; reflexivity.
Defined.

Lemma makeid_injective_witness :
  take 3 (draws (mkEnv [0; 26; 61; 9] [] [])) = take 3 (draws (mkEnv [0; 26; 61] [] [])).
Proof.
  eapply (makeid_injective 3 (mkEnv [0; 26; 61; 9] [] []) (mkEnv [0; 26; 61] [] []));
    vm_compute; reflexivity.
Defined.

Lemma first_click_elapsed_zero_below_sentinel_witness :
  exists st e' st1 e1,
    session sample_str ([EvEverySecondRed; EvMouseTask (Some [7])] ++ [EvMouse1])
      sample_env = Some (st, e')
    /\ session sample_str [EvEverySecondRed; EvMouseTask (Some [7])] sample_env
       = Some (st1, e1)
    /\ mouseOver st1 = true
    /\ timerOverall st = Some 0%Q
    /\ timerRed st = Some 0%Q.
Proof.
  edestruct (first_click_elapsed_zero_below_sentinel sample_str
               [EvEverySecondRed; EvMouseTask (Some [7])] sample_env)
    as (st1 & e1 & Hs & _ & HO & HR).
  - cbn [sample_env perf].
    repeat (apply Forall_cons; split; [reflexivity|]). apply Forall_nil. exact I.
  - reflexivity.
  - vm_compute; reflexivity.
  - vm_compute in Hs. injection Hs as <- <-.
    eexists _, _, _, _. split; [vm_compute; reflexivity|].
    split; [vm_compute; reflexivity|]. split; [reflexivity|].
    split; [exact HO | exact HR].
Defined.
